(** * iMultiwfn: the report parser of [helper/descriptors.py]

    A shallow embedding of the descriptor parser: the [Molecule] class, the
    per-atom row readers [_read_charge] and [_read_fuzzy], the three scanning
    passes of [_get_other_descriptors], and the regular-expression lookups of
    [_get_cdft_descriptors].

    Conventions of the embedding.
    - A Python [str] is a [string]; a character is a code point below 256
      (the reports written by the analysis tool are ASCII).  The character
      classes below are Python's Unicode classes restricted to that range.
    - A raised exception is a value [Raise e] of the type [result]; the
      parser has no [try], so a raise anywhere ends the whole call.
    - A Python [float] is the exact decimal value of its literal, a reduced
      rational, or an infinity or a NaN; rounding to binary64 is left out.
    - The descriptor [dict] is a [gmap] from key strings to values. *)

From Stdlib Require Import ZArith QArith Ascii String List Lia Bool.
From stdpp Require Import base option list gmap strings sorting.

Local Open Scope string_scope.
Local Open Scope list_scope.

(** ** Exceptions *)

Inductive exn : Type :=
| IndexError
| ValueError
| TypeError
| AttributeError
| KeyError.

Inductive result (A : Type) : Type :=
| Ok (a : A)
| Raise (e : exn).

Arguments Ok {A} a.
Arguments Raise {A} e.

Definition rbind {A B : Type} (m : result A) (k : A -> result B) : result B :=
  match m with
  | Ok a => k a
  | Raise e => Raise e
  end.

Notation "'do' x <- m ; k" := (rbind m (fun x => k))
  (at level 10, x name, m at level 100, k at level 200).

Definition or_raise {A : Type} (e : exn) (o : option A) : result A :=
  match o with
  | Some a => Ok a
  | None => Raise e
  end.

Definition is_ok {A : Type} (m : result A) : bool :=
  match m with
  | Ok _ => true
  | Raise _ => false
  end.

(** ** Python strings *)

Module PyStr.

Definition code (c : ascii) : N := N_of_ascii c.

Definition between (lo hi : N) (c : ascii) : bool :=
  (lo <=? code c)%N && (code c <=? hi)%N.

(** [str.isspace] on one character: the whitespace of [str.split()],
    [str.strip()], [float], [int] and of the pattern class [\s]. *)
Definition isspace (c : ascii) : bool :=
  between 9 13 c || between 28 32 c || (code c =? 133)%N || (code c =? 160)%N.

(** The pattern class [\d]. *)
Definition isdigit (c : ascii) : bool := between 48 57 c.

(** The pattern class [\w]: [str.isalnum] or an underscore. *)
Definition isword (c : ascii) : bool :=
  isdigit c || between 65 90 c || between 97 122 c || (code c =? 95)%N
  || (code c =? 170)%N || (code c =? 178)%N || (code c =? 179)%N
  || (code c =? 181)%N || (code c =? 185)%N || (code c =? 186)%N
  || between 188 190 c || between 192 214 c || between 216 246 c
  || between 248 255 c.

(** The line boundaries of [str.splitlines]. *)
Definition islinebreak (c : ascii) : bool :=
  between 10 13 c || between 28 30 c || (code c =? 133)%N.

Definition lower (c : ascii) : ascii :=
  if between 65 90 c then ascii_of_N (code c + 32) else c.

Fixpoint lower_str (s : string) : string :=
  match s with
  | EmptyString => EmptyString
  | String c s' => String (lower c) (lower_str s')
  end.

(** [s.startswith(p)] *)
Fixpoint starts_with (p s : string) : bool :=
  match p with
  | EmptyString => true
  | String a p' =>
      match s with
      | String b s' => Ascii.eqb a b && starts_with p' s'
      | EmptyString => false
      end
  end.

(** [sub in s] *)
Fixpoint contains (sub s : string) : bool :=
  starts_with sub s
  || match s with
     | String _ s' => contains sub s'
     | EmptyString => false
     end.

Definition cons_head (c : ascii) (l : list string) : list string :=
  match l with
  | h :: t => String c h :: t
  | [] => [String c EmptyString]
  end.

(** [s.split(sep)] for a separator that is not empty: the fields between
    the occurrences of [sep] found from left to right, none overlapping.
    [skip] counts the characters of a separator still to pass over. *)
Fixpoint split_go (sep : string) (skip : nat) (s : string) : list string :=
  match s with
  | EmptyString => [EmptyString]
  | String c s' =>
      match skip with
      | S k => split_go sep k s'
      | O =>
          if starts_with sep s
          then EmptyString :: split_go sep (String.length sep - 1) s'
          else cons_head c (split_go sep 0 s')
      end
  end.

Definition split (sep s : string) : list string := split_go sep 0 s.

(** [s.split()]: the maximal runs of characters that are not whitespace. *)
Fixpoint split_ws (s : string) : list string :=
  match s with
  | EmptyString => []
  | String c s' =>
      if isspace c then split_ws s'
      else match s' with
           | EmptyString => [String c EmptyString]
           | String c' _ =>
               if isspace c' then String c EmptyString :: split_ws s'
               else cons_head c (split_ws s')
           end
  end.

Fixpoint lstrip (s : string) : string :=
  match s with
  | EmptyString => EmptyString
  | String c s' => if isspace c then lstrip s' else s
  end.

Fixpoint rstrip (s : string) : string :=
  match s with
  | EmptyString => EmptyString
  | String c s' =>
      match rstrip s' with
      | EmptyString => if isspace c then EmptyString else String c EmptyString
      | r => String c r
      end
  end.

(** [s.strip()] *)
Definition strip (s : string) : string := rstrip (lstrip s).

(** [s.splitlines()]: a carriage return followed by a line feed is one
    boundary, and no empty line is reported after the last boundary. *)
Fixpoint splitlines_go (after_cr : bool) (s : string) : list string :=
  match s with
  | EmptyString => []
  | String c s' =>
      if after_cr && (code c =? 10)%N then splitlines_go false s'
      else if islinebreak c then EmptyString :: splitlines_go (code c =? 13)%N s'
      else cons_head c (splitlines_go false s')
  end.

Definition splitlines (s : string) : list string := splitlines_go false s.

End PyStr.

(** ** Python numbers: [int(s)] and [float(s)] *)

Module PyNum.
Import PyStr.

Inductive pyfloat : Type :=
| FNum (q : Q)
| FInf (neg : bool)
| FNaN.

Definition digit_val (c : ascii) : Z := Z.of_N (code c) - 48.

Definition is_char (n : N) (c : ascii) : bool := (code c =? n)%N.

(** An optional sign: [true] for a minus. *)
Definition take_sign (s : string) : bool * string :=
  match s with
  | String c s' =>
      if is_char 45 c then (true, s')
      else if is_char 43 c then (false, s')
      else (false, s)
  | EmptyString => (false, s)
  end.

(** Decimal digits up to the end of the string, single underscores allowed
    between two digits. *)
Fixpoint int_digits (prev_digit : bool) (acc : Z) (s : string) : option Z :=
  match s with
  | EmptyString => if prev_digit then Some acc else None
  | String c s' =>
      if isdigit c then int_digits true (10 * acc + digit_val c) s'
      else if is_char 95 c && prev_digit then int_digits false acc s'
      else None
  end.

(** [int(s)]; [None] stands for the [ValueError]. *)
Definition py_int (s : string) : option Z :=
  let '(neg, t) := take_sign (strip s) in
  match int_digits false 0 t with
  | Some n => Some (if neg then - n else n)%Z
  | None => None
  end.

(** Underscores of a float literal: each one stands between two digits;
    they are removed before the number is read. *)
Fixpoint remove_underscores (prev : ascii) (s : string) : option string :=
  match s with
  | EmptyString => if is_char 95 prev then None else Some EmptyString
  | String c s' =>
      if is_char 95 c
      then (if isdigit prev then remove_underscores c s' else None)
      else if is_char 95 prev && negb (isdigit c) then None
      else match remove_underscores c s' with
           | Some r => Some (String c r)
           | None => None
           end
  end.

(** The longest run of digits at the head of [s]: the value read so far,
    the number of digits, and the rest. *)
Fixpoint take_digits (acc : Z) (n : nat) (s : string) : Z * nat * string :=
  match s with
  | String c s' =>
      if isdigit c then take_digits (10 * acc + digit_val c) (S n) s'
      else (acc, n, s)
  | EmptyString => (acc, n, s)
  end.

(** A decimal literal as mantissa and power of ten. *)
Definition parse_decimal (s : string) : option (Z * Z) :=
  let '(ip, n1, r1) := take_digits 0 0 s in
  let '(m, n2, r2) :=
    match r1 with
    | String c r1' => if is_char 46 c then take_digits ip 0 r1' else (ip, 0%nat, r1)
    | EmptyString => (ip, 0%nat, r1)
    end in
  if (n1 + n2 =? 0)%nat then None
  else match r2 with
       | EmptyString => Some (m, (- Z.of_nat n2)%Z)
       | String c r3 =>
           if is_char 101 c || is_char 69 c then
             let '(eneg, r4) := take_sign r3 in
             let '(ev, n3, r5) := take_digits 0 0 r4 in
             match n3, r5 with
             | S _, EmptyString =>
                 Some (m, ((if eneg then - ev else ev) - Z.of_nat n2)%Z)
             | _, _ => None
             end
           else None
       end.

Definition decimal_value (neg : bool) (m e : Z) : Q :=
  let sm := (if neg then - m else m)%Z in
  Qred (if (0 <=? e)%Z then (sm * 10 ^ e)%Z # 1
        else sm # Z.to_pos (10 ^ (- e))).

(** [float(s)]; [None] stands for the [ValueError]. *)
Definition py_float (s : string) : option pyfloat :=
  match remove_underscores Ascii.zero (strip s) with
  | None => None
  | Some t =>
      let '(neg, r) := take_sign t in
      let w := lower_str r in
      if String.eqb w "inf" || String.eqb w "infinity" then Some (FInf neg)
      else if String.eqb w "nan" then Some FNaN
      else match parse_decimal r with
           | Some (m, e) => Some (FNum (decimal_value neg m e))
           | None => None
           end
  end.

(** [x * c] for a positive constant [c]. *)
Definition fscale (c : Q) (x : pyfloat) : pyfloat :=
  match x with
  | FNum q => FNum (Qred (q * c))
  | FInf neg => FInf neg
  | FNaN => FNaN
  end.

(** [0.529177249], the Bohr radius in angstrom. *)
Definition bohr : Q := 529177249 # 1000000000.

End PyNum.

(** ** The regular expressions of the parser *)

Module PyRe.
Import PyStr.

(** The patterns of the parser are sequences of four kinds of items: a
    literal text, a greedy [+] over a character class, the same inside the
    capture group 1, and the word boundary [\b]. *)
Inductive pattern_item : Type :=
| Lit (s : string)
| Plus (cls : ascii -> bool)
| GroupPlus (cls : ascii -> bool)
| WordB.

Definition after_lit (l : string) (prev : option ascii) : option ascii :=
  match get (String.length l - 1) l with
  | Some c => Some c
  | None => prev
  end.

Fixpoint drop_str (n : nat) (s : string) : string :=
  match n, s with
  | S k, String _ s' => drop_str k s'
  | _, _ => s
  end.

Definition word_at (o : option ascii) : bool :=
  match o with
  | Some c => isword c
  | None => false
  end.

Definition head_char (s : string) : option ascii :=
  match s with
  | String c _ => Some c
  | EmptyString => None
  end.

Section Greedy.
Context {A : Type} (cls : ascii -> bool).
Context (k : option ascii -> string -> option A).

Definition no_more (prev : option ascii) (s : string) : option (string * A) :=
  match k prev s with
  | Some a => Some (EmptyString, a)
  | None => None
  end.

(** Zero or more characters of the class, the longest run first, giving
    characters back one at a time while the rest of the pattern fails. *)
Fixpoint star (prev : option ascii) (s : string) : option (string * A) :=
  match s with
  | String c s' =>
      if cls c then
        match star (Some c) s' with
        | Some (m, a) => Some (String c m, a)
        | None => no_more prev s
        end
      else no_more prev s
  | EmptyString => no_more prev s
  end.

Definition plus (s : string) : option (string * A) :=
  match s with
  | String c s' =>
      if cls c then
        match star (Some c) s' with
        | Some (m, a) => Some (String c m, a)
        | None => None
        end
      else None
  | EmptyString => None
  end.
End Greedy.

(** A match of the pattern at the head of [s], [prev] being the character
    before it; the result is the text of group 1 when the pattern has one. *)
Fixpoint match_here (r : list pattern_item) (prev : option ascii) (s : string)
  : option (option string) :=
  match r with
  | [] => Some None
  | Lit l :: r' =>
      if starts_with l s
      then match_here r' (after_lit l prev) (drop_str (String.length l) s)
      else None
  | Plus cls :: r' =>
      match plus cls (match_here r') s with
      | Some (_, g) => Some g
      | None => None
      end
  | GroupPlus cls :: r' =>
      match plus cls (match_here r') s with
      | Some (m, _) => Some (Some m)
      | None => None
      end
  | WordB :: r' =>
      if xorb (word_at prev) (word_at (head_char s))
      then match_here r' prev s
      else None
  end.

Fixpoint search_go (r : list pattern_item) (prev : option ascii) (s : string)
  : option (option string) :=
  match match_here r prev s with
  | Some g => Some g
  | None =>
      match s with
      | String c s' => search_go r (Some c) s'
      | EmptyString => None
      end
  end.

(** [re.search(r, s)]: the leftmost match. *)
Definition search (r : list pattern_item) (s : string) : option (option string) :=
  search_go r None s.

(** [re.search(r, s).group(1)]: on no match the result [None] has no
    attribute [group]. *)
Definition search_group1 (r : list pattern_item) (s : string) : result string :=
  match search r s with
  | Some (Some g) => Ok g
  | Some None => Raise IndexError
  | None => Raise AttributeError
  end.

(** The class [[\d.-]], also written [[-\d.]]. *)
Definition num_char (c : ascii) : bool :=
  isdigit c || (code c =? 46)%N || (code c =? 45)%N.

(** The class [[\d.]]. *)
Definition unsigned_char (c : ascii) : bool :=
  isdigit c || (code c =? 46)%N.

End PyRe.

(** ** Lists as Python has them *)

Module PyList.

(** [l[i]] for an index that is not negative. *)
Definition item {A : Type} (l : list A) (i : nat) : result A :=
  or_raise IndexError (l !! i).

(** A slice bound brought into [0 .. len]: a negative bound counts from
    the end. *)
Definition clamp (len : nat) (i : Z) : nat :=
  if (i <? 0)%Z then Z.to_nat (i + Z.of_nat len)
  else Nat.min (Z.to_nat i) len.

(** [l[start:stop]] *)
Definition slice {A : Type} (l : list A) (start stop : Z) : list A :=
  let a := clamp (length l) start in
  let b := clamp (length l) stop in
  take (b - a) (drop a l).

(** [l.index(x)]: the position of the first element equal to [x]. *)
Fixpoint index (l : list string) (x : string) : option nat :=
  match l with
  | [] => None
  | y :: l' => if String.eqb y x then Some O else S <$> index l' x
  end.

End PyList.

Import PyStr PyNum PyRe.

(** ** The class [Molecule] *)

Record Molecule : Type := mkMolecule {
  name : option string;
  atoms : list string;
  charges : list pyfloat
}.

(** A value stored in the dictionary of [to_dict]. *)
Inductive mol_value : Type :=
| MName (n : option string)
| MAtoms (l : list string)
| MCharges (l : list pyfloat).

Definition to_dict (m : Molecule) : gmap string mol_value :=
  <["charges" := MCharges (charges m)]>
    (<["atoms" := MAtoms (atoms m)]>
       (<["name" := MName (name m)]> ∅)).

(** [d[key]] *)
Definition getitem {V : Type} (d : gmap string V) (key : string) : result V :=
  or_raise KeyError (d !! key).

(** [Molecule.from_dict].  Python builds the object from whatever the three
    keys hold; the record is typed, so a value of another shape than the one
    [to_dict] stores is refused here with a [TypeError]. *)
Definition from_dict (d : gmap string mol_value) : result Molecule :=
  do n <- getitem d "name";
  do a <- getitem d "atoms";
  do c <- getitem d "charges";
  match n, a, c with
  | MName n', MAtoms a', MCharges c' => Ok (mkMolecule n' a' c')
  | _, _, _ => Raise TypeError
  end.

(** [len(m)] *)
Definition mol_len (m : Molecule) : nat := length (atoms m).

(** ** The per-atom row readers *)

Definition py_float_r (s : string) : result pyfloat := or_raise ValueError (py_float s).
Definition py_int_r (s : string) : result Z := or_raise ValueError (py_int s).

(** The body of one [for line in ...] loop of a reader: [row] reads a label
    and a value from the line, both are appended. *)
Fixpoint read_rows (row : string -> result (string * pyfloat)) (ls : list string)
    (acc : list string * list pyfloat) : result (list string * list pyfloat) :=
  match ls with
  | [] => Ok acc
  | line :: rest =>
      do lv <- row line;
      read_rows row rest (acc.1 ++ [lv.1], acc.2 ++ [lv.2])
  end.

Definition row_RESP (line : string) : result (string * pyfloat) :=
  let parts := split_ws line in
  do p0 <- PyList.item parts 0;
  do p1 <- PyList.item parts 1;
  let atom_name := p0 +:+ p1 in
  do p2 <- PyList.item parts 2;
  do charge <- py_float_r p2;
  Ok (atom_name, charge).

Definition row_Hirshfeld (line : string) : result (string * pyfloat) :=
  let parts := split_ws line in
  do p4 <- PyList.item parts 4;
  do p5 <- PyList.item parts 5;
  let atom_identifier := p4 +:+ p5 in
  do p7 <- PyList.item parts 7;
  do charge <- py_float_r p7;
  let atom_identifier := strip atom_identifier in
  Ok (atom_identifier, charge).

Definition row_ADCH (line : string) : result (string * pyfloat) :=
  let parts := split_ws line in
  do p1 <- PyList.item parts 1;
  let atom_name := p1 +:+ ")" in
  do p3 <- PyList.item parts 3;
  do charge <- py_float_r p3;
  Ok (atom_name, charge).

Definition row_spin (line : string) : result (string * pyfloat) :=
  let parts := split_ws line in
  do p1 <- PyList.item parts 1;
  do p2 <- PyList.item parts 2;
  let atom_name := p1 +:+ p2 in
  do p4 <- PyList.item parts 4;
  do population <- py_float_r p4;
  Ok (atom_name, population).

Definition row_fuzzy (line : string) : result (string * pyfloat) :=
  let parts := split_ws line in
  do p0 <- PyList.item parts 0;
  do p1 <- PyList.item parts 1;
  let atom_name := p0 +:+ p1 in
  do p2 <- PyList.item parts 2;
  do value <- py_float_r p2;
  Ok (atom_name, value).

(** One [if charge_type == ...: for line in ...] block. *)
Definition when_type (ty expected : string)
    (row : string -> result (string * pyfloat)) (ls : list string)
    (acc : list string * list pyfloat) : result (list string * list pyfloat) :=
  if String.eqb ty expected then read_rows row ls acc else Ok acc.

Definition _read_charge (charge_lines : list string) (charge_type : string)
    : result Molecule :=
  do s <- when_type charge_type "RESP" row_RESP charge_lines ([], []);
  do s <- when_type charge_type "Hirshfeld" row_Hirshfeld charge_lines s;
  do s <- when_type charge_type "ADCH" row_ADCH charge_lines s;
  do s <- when_type charge_type "spin" row_spin charge_lines s;
  Ok (mkMolecule None s.1 s.2).

Definition _read_fuzzy (contents : list string) (descriptor_name : string)
    : result Molecule :=
  do s <- when_type descriptor_name "electron_density" row_fuzzy contents ([], []);
  do s <- when_type descriptor_name "Laplacian_electron_density" row_fuzzy contents s;
  do s <- when_type descriptor_name "kinetic_energy_density" row_fuzzy contents s;
  Ok (mkMolecule None s.1 s.2).

(** ** The descriptor dictionary *)

Inductive descval : Type :=
| DNone
| DInt (n : Z)
| DFloat (x : pyfloat)
| DMol (m : Molecule).

Abbreviation descriptors := (gmap string descval).

(** The keys of the general report, in the order of the source. *)
Definition other_keys : list string :=
  [ "atom_num"; "total_energy"; "HOMO"; "LUMO"; "HOMO_LUMO_gap";
    "radius_gyration"; "mass"; "diameter"; "MPP"; "SDP"; "surface_area";
    "volume"; "sphericity"; "dipole_moment"; "MPI"; "ESP_min"; "ESP_max";
    "ALIE_min"; "ALIE_max"; "ALIE_avg"; "LEAE_min"; "LEAE_max"; "LEA_min";
    "LEA_max"; "LEA_avg"; "Hirshfeld_charge"; "ADCH_charge"; "RESP_charge";
    "spin_population"; "electron_density"; "Laplacian_electron_density";
    "kinetic_energy_density" ].

(** A dictionary with every key of [keys] set to [None]. *)
Definition none_dict (keys : list string) : descriptors :=
  list_to_map ((fun k => (k, DNone)) <$> keys).

Definition initial_descriptors : descriptors := none_dict other_keys.

(** [for line in ls: body] and [for idx, line in enumerate(ls): body] over a
    state; a raise in the body ends the loop. *)
Fixpoint for_each {St : Type} (body : string -> St -> result St)
    (ls : list string) (s : St) : result St :=
  match ls with
  | [] => Ok s
  | line :: rest => do s' <- body line s; for_each body rest s'
  end.

Fixpoint for_enumerate {St : Type} (body : nat -> string -> St -> result St)
    (idx : nat) (ls : list string) (s : St) : result St :=
  match ls with
  | [] => Ok s
  | line :: rest => do s' <- body idx line s; for_enumerate body (S idx) rest s'
  end.

(** ** First pass: molecular structure and energies *)

(** [line.split(first)[1].split(second)[0]] *)
Definition between_markers (first second line : string) : result string :=
  do new_str <- PyList.item (split first line) 1;
  PyList.item (split second new_str) 0.

(** [float(re.search(pattern, line).group(1))] *)
Definition search_float (pattern : list pattern_item) (line : string) : result pyfloat :=
  do g <- search_group1 pattern line;
  py_float_r g.

Definition re_energy : list pattern_item := [Lit "energy:"; Plus isspace; GroupPlus num_char].
Definition re_gap : list pattern_item := [Lit "gap:"; Plus isspace; GroupPlus num_char].
Definition re_colon : list pattern_item := [Lit ":"; Plus isspace; GroupPlus unsigned_char].
Definition re_is : list pattern_item := [Lit "is"; Plus isspace; GroupPlus unsigned_char].
Definition re_system : list pattern_item := [Lit "system:"; Plus isspace; GroupPlus unsigned_char].

Definition scalar_line (line : string) (d : descriptors) : result descriptors :=
  if contains " Atoms:  " line then
    do new_str <- between_markers ": " "," line;
    do v <- py_int_r new_str;
    Ok (<["atom_num" := DInt v]> d)
  else if contains " Molecule weight:      " line then
    do new_str <- between_markers ": " " Da" line;
    do v <- py_float_r new_str;
    Ok (<["mass" := DFloat v]> d)
  else if contains " Total energy:    " line then
    do new_str <- between_markers ": " "Hartree" line;
    do v <- py_float_r new_str;
    Ok (<["total_energy" := DFloat v]> d)
  else if contains "Orbital" line && contains "HOMO" line then
    do v <- search_float re_energy line; Ok (<["HOMO" := DFloat v]> d)
  else if contains "Orbital" line && contains "LUMO" line then
    do v <- search_float re_energy line; Ok (<["LUMO" := DFloat v]> d)
  else if contains "HOMO-LUMO gap:" line then
    do v <- search_float re_gap line; Ok (<["HOMO_LUMO_gap" := DFloat v]> d)
  else if contains " Radius of gyration" line then
    do v <- search_float re_colon line; Ok (<["radius_gyration" := DFloat v]> d)
  else if contains " Molecular planarity parameter (MPP) is" line then
    do v <- search_float re_is line; Ok (<["MPP" := DFloat v]> d)
  else if contains " Span of deviation from plane (SDP) is" line then
    do v <- search_float re_is line; Ok (<["SDP" := DFloat v]> d)
  else if contains " Diameter of the system" line then
    do v <- search_float re_system line; Ok (<["diameter" := DFloat v]> d)
  else if contains " Sphericity" line then
    do v <- search_float re_colon line; Ok (<["sphericity" := DFloat v]> d)
  else if contains " Magnitude of molecular dipole moment (a.u.&Debye)" line then
    do v <- search_float re_colon line; Ok (<["dipole_moment" := DFloat v]> d)
  else Ok d.

Definition scalar_pass (lines : list string) (d : descriptors) : result descriptors :=
  for_each scalar_line lines d.

(** ** Second pass: the surface analysis summaries *)

Definition summary_heading : string :=
  "       ================= Summary of surface analysis =================".

(** [float(line.split(first)[1].split(second)[0])] *)
Definition marked_float (first second line : string) : result pyfloat :=
  do new_str <- between_markers first second line;
  py_float_r new_str.

(** The branch taken for the heading at line [idx] when the counter
    [index] has just been increased. *)
Definition surface_section (lines : list string) (idx index : nat)
    (d : descriptors) : result descriptors :=
  match index with
  | 1 =>
      let start_idx := idx + 2 in
      do line <- PyList.item lines start_idx;
      do x <- marked_float "Volume: " "Bohr^3" line;
      let d := <["volume" := DFloat (fscale (bohr ^ 3) x)]> d in
      do line <- PyList.item lines (start_idx + 2);
      do x <- marked_float "Overall surface area: " "Bohr^2" line;
      Ok (<["surface_area" := DFloat (fscale (bohr ^ 2) x)]> d)
  | 2 =>
      let start_idx := idx + 4 in
      do line <- PyList.item lines start_idx;
      do x <- marked_float " Minimal value:  " "kcal/mol   Maximal" line;
      let d := <["ESP_min" := DFloat x]> d in
      do x <- marked_float "Maximal value: " "kcal/mol" line;
      let d := <["ESP_max" := DFloat x]> d in
      do line <- PyList.item lines (start_idx + 13);
      do x <- marked_float ":" "eV" line;
      Ok (<["MPI" := DFloat x]> d)
  | 3 =>
      let start_idx := idx + 4 in
      do line <- PyList.item lines start_idx;
      do x <- marked_float " Minimal value:  " "eV,  " line;
      let d := <["ALIE_min" := DFloat x]> d in
      do x <- marked_float "Maximal value: " "eV" line;
      let d := <["ALIE_max" := DFloat x]> d in
      do line <- PyList.item lines (start_idx + 4);
      do x <- marked_float "value:" "a.u. " line;
      Ok (<["ALIE_avg" := DFloat x]> d)
  | 4 =>
      let start_idx := idx + 4 in
      do line <- PyList.item lines start_idx;
      do x <- marked_float " Minimal value:  " "eV,  " line;
      let d := <["LEA_min" := DFloat x]> d in
      do x <- marked_float "Maximal value: " "eV" line;
      let d := <["LEA_max" := DFloat x]> d in
      do line <- PyList.item lines (start_idx + 4);
      do x <- marked_float "value:" "a.u. " line;
      Ok (<["LEA_avg" := DFloat x]> d)
  | 5 =>
      let start_idx := idx + 4 in
      do line <- PyList.item lines start_idx;
      do x <- marked_float " Minimal value:  " "eV,  " line;
      let d := <["LEAE_min" := DFloat x]> d in
      do x <- marked_float "Maximal value: " "eV" line;
      Ok (<["LEAE_max" := DFloat x]> d)
  | _ => Ok d
  end.

Definition surface_body (lines : list string) (idx : nat) (line : string)
    (s : nat * descriptors) : result (nat * descriptors) :=
  let '(index, d) := s in
  if contains summary_heading line then
    let index := index + 1 in
    do d' <- surface_section lines idx index d;
    Ok (index, d')
  else Ok (index, d).

Definition surface_pass (lines : list string) (d : descriptors) : result descriptors :=
  do s <- for_enumerate (surface_body lines) 0 lines (0, d);
  Ok s.2.

(** ** Third pass: the atom sections *)

Definition dq : string := String (ascii_of_N 34) EmptyString.

Definition anchor_hirshfeld : string := " Citation of ADCH: Tian Lu, Feiwu Chen".
Definition anchor_adch : string :=
  " Note: The values shown after " +:+ dq +:+ "Corrected charge" +:+ dq
  +:+ " are ADCH charges".
Definition anchor_resp : string :=
  " Stage 2 of standard RESP fitting is skipped since no atom needs to be fitted".
Definition anchor_spin : string := " Population of atoms".
Definition anchor_fuzzy : string := "   Atomic space        Value  ".

(** [start_idx + descriptors['atom_num']].  With [None] the sum raises a
    [TypeError]; with any other value that is not an [int] the sum or the
    slice that follows it does. *)
Definition add_atom_num (start_idx : nat) (d : descriptors) : result Z :=
  do v <- getitem d "atom_num";
  match v with
  | DInt n => Ok (Z.of_nat start_idx + n)%Z
  | _ => Raise TypeError
  end.

(** The slice of [atom_num] lines from [start_idx] on, read by
    [_read_charge] and stored under [key]. *)
Definition window_section (lines : list string) (start_idx : nat)
    (charge_type key : string) (d : descriptors) : result descriptors :=
  do end_idx <- add_atom_num start_idx d;
  let charge_lines := PyList.slice lines (Z.of_nat start_idx) end_idx in
  do m <- _read_charge charge_lines charge_type;
  Ok (<[key := DMol m]> d).

(** [start_idx = lines.index(line) + offset], then the section at
    [start_idx]. *)
Definition charge_section (lines : list string) (line : string) (offset : nat)
    (charge_type key : string) (d : descriptors) : result descriptors :=
  do i <- or_raise ValueError (PyList.index lines line);
  let start_idx := i + offset in
  window_section lines start_idx charge_type key d.

Definition atom_line (lines : list string) (line : string) (d : descriptors)
    : result descriptors :=
  if contains anchor_hirshfeld line then
    charge_section lines line 8 "Hirshfeld" "Hirshfeld_charge" d
  else if contains anchor_adch line then
    charge_section lines line 6 "ADCH" "ADCH_charge" d
  else if contains anchor_resp line then
    charge_section lines line 3 "RESP" "RESP_charge" d
  else if contains anchor_spin line then
    charge_section lines line 1 "spin" "spin_population" d
  else Ok d.

Definition atom_pass (lines : list string) (d : descriptors) : result descriptors :=
  for_each (atom_line lines) lines d.

(** ** Fourth pass: the fuzzy atomic space sections *)

Definition fuzzy_section (lines : list string) (idx : nat) (key : string)
    (d : descriptors) : result descriptors :=
  let start_idx := idx + 1 in
  do end_idx <- add_atom_num start_idx d;
  let fuzzy_lines := PyList.slice lines (Z.of_nat start_idx) end_idx in
  do m <- _read_fuzzy fuzzy_lines key;
  Ok (<[key := DMol m]> d).

Definition fuzzy_rank (lines : list string) (idx index : nat) (d : descriptors)
    : result descriptors :=
  match index with
  | 1 => fuzzy_section lines idx "electron_density" d
  | 2 => fuzzy_section lines idx "Laplacian_electron_density" d
  | 3 => fuzzy_section lines idx "kinetic_energy_density" d
  | _ => Ok d
  end.

Definition fuzzy_body (lines : list string) (idx : nat) (line : string)
    (s : nat * descriptors) : result (nat * descriptors) :=
  let '(index, d) := s in
  if contains anchor_fuzzy line then
    let index := index + 1 in
    do d' <- fuzzy_rank lines idx index d;
    Ok (index, d')
  else Ok (index, d).

Definition fuzzy_pass (lines : list string) (d : descriptors) : result descriptors :=
  do s <- for_enumerate (fuzzy_body lines) 0 lines (0, d);
  Ok s.2.

(** ** The parser of the general report *)

Definition parse_lines (lines : list string) : result descriptors :=
  do d <- scalar_pass lines initial_descriptors;
  do d <- surface_pass lines d;
  do d <- atom_pass lines d;
  fuzzy_pass lines d.

Definition _get_other_descriptors (contents : string) : result descriptors :=
  parse_lines (splitlines contents).

(** ** The parser of the CDFT report *)

(** [r"\b" + re.escape(name) + r":\s+([-\d.]+)\s+\w+"] *)
Definition cdft_pattern (name : string) : list pattern_item :=
  [WordB; Lit name; Lit ":"; Plus isspace; GroupPlus num_char; Plus isspace;
   Plus isword].

Definition _find_descriptor (data name : string) : option string :=
  match search (cdft_pattern name) data with
  | Some g => g
  | None => None
  end.

Definition search_names : list string :=
  [ "Mulliken electronegativity"; "Chemical potential";
    "Hardness (=fundamental gap)"; "Electrophilicity index";
    "Nucleophilicity index" ].

Definition cdft_keys : list string :=
  [ "electronegativity"; "chemical_potential"; "chemical_hardness";
    "electrophilicity_index"; "nucleophilicity_index" ].

Definition find_step (contents descriptor_name : string) (sd : descriptors)
    : result descriptors :=
  match _find_descriptor contents descriptor_name with
  | Some descriptor_value =>
      do x <- py_float_r descriptor_value;
      Ok (<[descriptor_name := DFloat x]> sd)
  | None => Ok sd
  end.

Definition _get_cdft_descriptors (contents : string) : result descriptors :=
  do sd <- for_each (find_step contents) search_names (none_dict search_names);
  let cd := none_dict cdft_keys in
  do v <- getitem sd "Mulliken electronegativity";
  let cd := <["electronegativity" := v]> cd in
  do v <- getitem sd "Chemical potential";
  let cd := <["chemical_potential" := v]> cd in
  do v <- getitem sd "Hardness (=fundamental gap)";
  let cd := <["chemical_hardness" := v]> cd in
  do v <- getitem sd "Electrophilicity index";
  let cd := <["electrophilicity_index" := v]> cd in
  do v <- getitem sd "Nucleophilicity index";
  Ok (<["nucleophilicity_index" := v]> cd).

(** [get_descriptors] on the texts of the two files: [{**other, **cdft}]. *)
Definition get_descriptors (cdft_contents contents : string) : result descriptors :=
  do other_descriptors <- _get_other_descriptors contents;
  do cdft_descriptors <- _get_cdft_descriptors cdft_contents;
  Ok (cdft_descriptors ∪ other_descriptors).

(** The value under [key] of a parse, for reading results. *)
Definition field (key : string) (r : result descriptors) : result (option descval) :=
  do d <- r; Ok (d !! key).

(** ** The declared row layouts

    The table of the specification: which whitespace-separated tokens of a
    row make the atom label and which one is the value. *)

Inductive label_tail : Type :=
| TailToken (j : nat)
| TailText (s : string).

Record layout : Type := mkLayout {
  label_head : nat;
  label_rest : label_tail;
  label_trimmed : bool;
  value_token : nat
}.

Definition layout_RESP : layout := mkLayout 0 (TailToken 1) false 2.
Definition layout_Hirshfeld : layout := mkLayout 4 (TailToken 5) true 7.
Definition layout_ADCH : layout := mkLayout 1 (TailText ")") false 3.
Definition layout_spin : layout := mkLayout 1 (TailToken 2) false 4.
Definition layout_fuzzy : layout := mkLayout 0 (TailToken 1) false 2.

Definition row_by_layout (L : layout) (line : string) : result (string * pyfloat) :=
  let tokens := split_ws line in
  do h <- PyList.item tokens (label_head L);
  do t <- match label_rest L with
          | TailToken j => PyList.item tokens j
          | TailText s => Ok s
          end;
  do v <- PyList.item tokens (value_token L);
  do x <- py_float_r v;
  Ok (if label_trimmed L then strip (h +:+ t) else h +:+ t, x).

Fixpoint map_rows (row : string -> result (string * pyfloat)) (ls : list string)
    : result (list (string * pyfloat)) :=
  match ls with
  | [] => Ok []
  | line :: rest =>
      do x <- row line;
      do xs <- map_rows row rest;
      Ok (x :: xs)
  end.

(** The series read from a window of rows with one layout: the labels and
    the values of the rows, in the order of the rows. *)
Definition series_by_layout (L : layout) (ls : list string) : result Molecule :=
  do rows <- map_rows (row_by_layout L) ls;
  Ok (mkMolecule None rows.*1 rows.*2).

Definition fuzzy_names : list string :=
  ["electron_density"; "Laplacian_electron_density"; "kinetic_energy_density"].

(** The layout declared for the series stored under a key. *)
Definition key_layout (key : string) : option layout :=
  if String.eqb key "Hirshfeld_charge" then Some layout_Hirshfeld
  else if String.eqb key "ADCH_charge" then Some layout_ADCH
  else if String.eqb key "RESP_charge" then Some layout_RESP
  else if String.eqb key "spin_population" then Some layout_spin
  else if existsb (String.eqb key) fuzzy_names then Some layout_fuzzy
  else None.

(** ** Occurrence ranks

    The positions of the lines that contain an anchor, in text order, and a
    scan that hands the occurrence at position [idx] to a handler together
    with its rank (the first occurrence has rank 1). *)

Fixpoint occurrences_from (anchor : string) (idx : nat) (ls : list string) : list nat :=
  match ls with
  | [] => []
  | line :: rest =>
      if contains anchor line
      then idx :: occurrences_from anchor (S idx) rest
      else occurrences_from anchor (S idx) rest
  end.

Definition occurrences (anchor : string) (lines : list string) : list nat :=
  occurrences_from anchor 0 lines.

Fixpoint by_rank (handler : nat -> nat -> descriptors -> result descriptors)
    (rank : nat) (occ : list nat) (d : descriptors) : result descriptors :=
  match occ with
  | [] => Ok d
  | idx :: rest =>
      do d' <- handler idx (S rank) d;
      by_rank handler (S rank) rest d'
  end.

(** The fields of the logical section that an occurrence rank of the
    surface summary heading stands for. *)
Definition section_keys (rank : nat) : list string :=
  match rank with
  | 1 => ["volume"; "surface_area"]
  | 2 => ["ESP_min"; "ESP_max"; "MPI"]
  | 3 => ["ALIE_min"; "ALIE_max"; "ALIE_avg"]
  | 4 => ["LEA_min"; "LEA_max"; "LEA_avg"]
  | 5 => ["LEAE_min"; "LEAE_max"]
  | _ => []
  end.

(** The number of lines of [ls] that contain the anchor, and the occurrence
    rank of the line at position [idx]: one more than the number of lines
    before it that contain the anchor. *)
Fixpoint count_lines (anchor : string) (ls : list string) : nat :=
  match ls with
  | [] => 0
  | line :: rest =>
      if contains anchor line then S (count_lines anchor rest)
      else count_lines anchor rest
  end.

Definition occurrence_rank (anchor : string) (lines : list string) (idx : nat) : nat :=
  S (count_lines anchor (take idx lines)).

(** ** Sample reports *)

Definition unwrap (r : result descriptors) : descriptors :=
  match r with
  | Ok d => d
  | Raise _ => ∅
  end.

(** A report with two surface summaries: the first is followed by the
    volume and the area, the second by the extrema of the electrostatic
    potential and, thirteen lines further, by the polarity index. *)
Definition sample_surface : list string :=
  [ summary_heading;
    EmptyString;
    " Volume:   200.0 Bohr^3  (  29.6 Angstrom^3)";
    " Estimated density: 1.0 g/cm^3";
    " Overall surface area:  100.0 Bohr^2  (  28.0 Angstrom^2)";
    summary_heading;
    EmptyString;
    " Volume:   200.0 Bohr^3  (  29.6 Angstrom^3)";
    " Estimated density: 1.0 g/cm^3";
    " Minimal value:  -40.5 kcal/mol   Maximal value:  52.25 kcal/mol";
    "a"; "b"; "c"; "d"; "e"; "f"; "g"; "h"; "i"; "j"; "k"; "l";
    " Molecular polarity index (MPI):  0.75 eV ( 17.3 kcal/mol)" ].

Definition sample_surface_result : descriptors :=
  unwrap (surface_pass sample_surface initial_descriptors).

(** A report of one atom in which the anchor line of the spin populations
    occurs twice, each time followed by another row. *)
Definition sample_duplicate : list string :=
  [ " Atoms:      1,  Basis functions:     48,  GTFs:     86";
    " Population of atoms";
    "   1   C   1   alpha    0.5";
    " Population of atoms";
    "   2   N   2   alpha    0.25" ].

(** The conversion of the text [seg] of a scalar and the assignment to
    [key]: a text that is not a number raises. *)
Definition convert_or_raise {A : Type} (conv : string -> option A)
    (mk : A -> descval) (key seg : string) (d : descriptors) : result descriptors :=
  match conv seg with
  | Some x => Ok (<[key := mk x]> d)
  | None => Raise ValueError
  end.

Definition line_no_hartree : string := " Total energy:    -76.4 a.u.".
Definition line_bare_energy : string := " Total energy:    -76.4".
Definition line_atoms_two : string :=
  " Atoms:      2,  Basis functions:     48,  GTFs:     86".

Definition line_atoms : string :=
  " Atoms:      3,  Basis functions:     48,  GTFs:     86".

(** ** The anchors of the fields

    For every key of the record, the anchors that a line has to contain for
    the parser to assign the key while it visits the line. *)

Definition anchor_table : list (string * list string) :=
  [ ("atom_num", [" Atoms:  "]);
    ("mass", [" Molecule weight:      "]);
    ("total_energy", [" Total energy:    "]);
    ("HOMO", ["Orbital"; "HOMO"]);
    ("LUMO", ["Orbital"; "LUMO"]);
    ("HOMO_LUMO_gap", ["HOMO-LUMO gap:"]);
    ("radius_gyration", [" Radius of gyration"]);
    ("MPP", [" Molecular planarity parameter (MPP) is"]);
    ("SDP", [" Span of deviation from plane (SDP) is"]);
    ("diameter", [" Diameter of the system"]);
    ("sphericity", [" Sphericity"]);
    ("dipole_moment", [" Magnitude of molecular dipole moment (a.u.&Debye)"]);
    ("volume", [summary_heading]);
    ("surface_area", [summary_heading]);
    ("ESP_min", [summary_heading]);
    ("ESP_max", [summary_heading]);
    ("MPI", [summary_heading]);
    ("ALIE_min", [summary_heading]);
    ("ALIE_max", [summary_heading]);
    ("ALIE_avg", [summary_heading]);
    ("LEA_min", [summary_heading]);
    ("LEA_max", [summary_heading]);
    ("LEA_avg", [summary_heading]);
    ("LEAE_min", [summary_heading]);
    ("LEAE_max", [summary_heading]);
    ("Hirshfeld_charge", [anchor_hirshfeld]);
    ("ADCH_charge", [anchor_adch]);
    ("RESP_charge", [anchor_resp]);
    ("spin_population", [anchor_spin]);
    ("electron_density", [anchor_fuzzy]);
    ("Laplacian_electron_density", [anchor_fuzzy]);
    ("kinetic_energy_density", [anchor_fuzzy]) ].

Fixpoint assoc_anchors (key : string) (t : list (string * list string)) : list string :=
  match t with
  | [] => []
  | (k, anchors) :: rest =>
      if String.eqb k key then anchors else assoc_anchors key rest
  end.

Definition required_anchors (key : string) : list string :=
  assoc_anchors key anchor_table.

(** Whether the line contains all the anchors of the key. *)
Definition may_write (key line : string) : bool :=
  match required_anchors key with
  | [] => false
  | anchors => forallb (fun a => contains a line) anchors
  end.

(** The anchors tested by the four passes (for the two orbital energies,
    the word that both tests share). *)
Definition all_anchors : list string :=
  [ " Atoms:  "; " Molecule weight:      "; " Total energy:    "; "Orbital";
    "HOMO-LUMO gap:"; " Radius of gyration";
    " Molecular planarity parameter (MPP) is";
    " Span of deviation from plane (SDP) is"; " Diameter of the system";
    " Sphericity"; " Magnitude of molecular dipole moment (a.u.&Debye)";
    summary_heading; anchor_hirshfeld; anchor_adch; anchor_resp; anchor_spin;
    anchor_fuzzy ].

Definition anchor_free (line : string) : bool :=
  forallb (fun a => negb (contains a line)) all_anchors.

(** The anchors of the sections that read [atom_num] rows. *)
Definition charge_anchor (line : string) : bool :=
  contains anchor_hirshfeld line || contains anchor_adch line
  || contains anchor_resp line || contains anchor_spin line.

Definition atom_section_anchor (line : string) : bool :=
  charge_anchor line || contains anchor_fuzzy line.

(** ["\n".join(ls)] *)
Definition join_lines (ls : list string) : string :=
  match ls with
  | [] => EmptyString
  | l :: rest =>
      fold_left (fun acc x => acc +:+ String (ascii_of_N 10) x) rest l
  end.

(** A report of two atoms with two fuzzy sections; the text ends after the
    first row of the second one. *)
Definition sample_short_window : list string :=
  [ line_atoms_two;
    anchor_fuzzy;
    "    1(C )            5.5";
    "    2(H )            0.5";
    anchor_fuzzy;
    "    1(C )           -1.25" ].

(** ** Invariants of the passes *)

(** The atom count is [count] and every series of the record was read with
    the layout of its key from a window of [count] lines of the report. *)
Definition series_from_windows (lines : list string) (count : option descval)
    (d : descriptors) : Prop :=
  d !! "atom_num" = count
  /\ forall key m, d !! key = Some (DMol m) ->
       exists n L start,
         count = Some (DInt n)
         /\ key_layout key = Some L
         /\ series_by_layout L
              (PyList.slice lines (Z.of_nat start) (Z.of_nat start + n)) = Ok m.

(** The first two passes store no series. *)
Definition no_series (d : descriptors) : Prop :=
  forall key m, d !! key <> Some (DMol m).

(** ** The CDFT names and their keys *)

Definition cdft_fields : list (string * string) :=
  [ ("Mulliken electronegativity", "electronegativity");
    ("Chemical potential", "chemical_potential");
    ("Hardness (=fundamental gap)", "chemical_hardness");
    ("Electrophilicity index", "electrophilicity_index");
    ("Nucleophilicity index", "nucleophilicity_index") ].

(** The value found for a name: [None] without a match, else the float of
    the text of group 1. *)
Definition cdft_value (contents name : string) : result descval :=
  match _find_descriptor contents name with
  | Some g => do x <- py_float_r g; Ok (DFloat x)
  | None => Ok DNone
  end.

Fixpoint all_chars (cls : ascii -> bool) (s : string) : bool :=
  match s with
  | EmptyString => true
  | String c s' => cls c && all_chars cls s'
  end.

Fixpoint last_char (prev : option ascii) (s : string) : option ascii :=
  match s with
  | EmptyString => prev
  | String c s' => last_char (Some c) s'
  end.

(** The next character, if any, is outside the class. *)
Definition stops (cls : ascii -> bool) (s : string) : bool :=
  match s with
  | EmptyString => true
  | String c _ => negb (cls c)
  end.

(** ** The container methods of [Molecule] *)

(** [l[i]] for any integer index: a negative index counts from the end. *)
Definition list_getitem {A : Type} (l : list A) (i : Z) : result A :=
  if (i <? 0)%Z then
    if (i + Z.of_nat (length l) <? 0)%Z then Raise IndexError
    else PyList.item l (Z.to_nat (i + Z.of_nat (length l)))
  else PyList.item l (Z.to_nat i).

(** [Molecule.__getitem__] with an integer key. *)
Definition __getitem__ (m : Molecule) (key : Z) : result (string * pyfloat) :=
  do a <- list_getitem (atoms m) key;
  do c <- list_getitem (charges m) key;
  Ok (a, c).

(** [Molecule.__iter__]: the pairs that the generator yields. *)
Definition __iter__ (m : Molecule) : list (string * pyfloat) :=
  zip (atoms m) (charges m).

(** ** The shape of a record *)

Definition in_keys (keys : list string) (key : string) : bool :=
  existsb (String.eqb key) keys.

(** The keys of the record that hold a float, and those that hold a
    series. *)
Definition float_keys : list string :=
  [ "total_energy"; "HOMO"; "LUMO"; "HOMO_LUMO_gap"; "radius_gyration";
    "mass"; "diameter"; "MPP"; "SDP"; "surface_area"; "volume"; "sphericity";
    "dipole_moment"; "MPI"; "ESP_min"; "ESP_max"; "ALIE_min"; "ALIE_max";
    "ALIE_avg"; "LEAE_min"; "LEAE_max"; "LEA_min"; "LEA_max"; "LEA_avg" ].

Definition series_keys : list string :=
  [ "Hirshfeld_charge"; "ADCH_charge"; "RESP_charge"; "spin_population";
    "electron_density"; "Laplacian_electron_density";
    "kinetic_energy_density" ].

(** Whether a value may stand under a key: [None] under every key of the
    record, an [int] under the atom count, a [float] under the scalar keys,
    and under the series keys a [Molecule] without a name whose two lists
    have the same length. *)
Definition value_fits (key : string) (v : descval) : bool :=
  match v with
  | DNone => in_keys other_keys key
  | DInt _ => String.eqb key "atom_num"
  | DFloat _ => in_keys float_keys key
  | DMol m =>
      in_keys series_keys key
      && match name m with None => true | Some _ => false end
      && Nat.eqb (length (atoms m)) (length (charges m))
  end.

(** Every key of the list is present with a fitting value and no other key
    is present. *)
Definition has_schema (keys : list string) (d : descriptors) : Prop :=
  forall key,
    match d !! key with
    | Some v => in_keys keys key = true /\ value_fits key v = true
    | None => in_keys keys key = false
    end.

(** ** The lines that a surface summary reads

    For a rank, the offsets from the heading of the lines that are read and
    the marker that each of them is split at first. *)
Definition section_markers (rank : nat) : list (nat * string) :=
  match rank with
  | 1 => [(2, "Volume: "); (4, "Overall surface area: ")]
  | 2 => [(4, " Minimal value:  "); (4, "Maximal value: "); (17, ":")]
  | 3 => [(4, " Minimal value:  "); (4, "Maximal value: "); (8, "value:")]
  | 4 => [(4, " Minimal value:  "); (4, "Maximal value: "); (8, "value:")]
  | 5 => [(4, " Minimal value:  "); (4, "Maximal value: ")]
  | _ => []
  end.

(** The key of the fuzzy series that an occurrence rank of the atomic
    space heading stands for. *)
Definition fuzzy_key (rank : nat) : option string :=
  match rank with
  | 1 => Some "electron_density"
  | 2 => Some "Laplacian_electron_density"
  | 3 => Some "kinetic_energy_density"
  | _ => None
  end.

(** The greatest token index that a layout reads. *)
Definition layout_reach (L : layout) : nat :=
  let tail := match label_rest L with TailToken j => j | TailText _ => 0 end in
  Nat.max (label_head L) (Nat.max tail (value_token L)).

Definition untrimmed (L : layout) : layout :=
  mkLayout (label_head L) (label_rest L) false (value_token L).

(** The layout that [_read_charge] follows for a charge type. *)
Definition charge_layout (charge_type : string) : option layout :=
  if String.eqb charge_type "RESP" then Some layout_RESP
  else if String.eqb charge_type "Hirshfeld" then Some layout_Hirshfeld
  else if String.eqb charge_type "ADCH" then Some layout_ADCH
  else if String.eqb charge_type "spin" then Some layout_spin
  else None.

(** The keys assigned by the first pass. *)
Definition scalar_keys : list string :=
  [ "atom_num"; "mass"; "total_energy"; "HOMO"; "LUMO"; "HOMO_LUMO_gap";
    "radius_gyration"; "MPP"; "SDP"; "diameter"; "sphericity";
    "dipole_moment" ].

(** ** Tokens and rows *)

(** No character of the string is whitespace. *)
Definition no_space (s : string) : bool :=
  all_chars (fun c => negb (isspace c)) s.

(** A row that a layout can read: it has a token at every index of the
    layout and its value token is a float. *)
Definition row_well_formed (L : layout) (line : string) : bool :=
  let tokens := split_ws line in
  Nat.ltb (layout_reach L) (length tokens)
  && match tokens !! value_token L with
     | Some t => match py_float t with Some _ => true | None => false end
     | None => false
     end.

(** The exception raised for a row that is not well formed. *)
Definition row_error (L : layout) (line : string) : exn :=
  if Nat.ltb (layout_reach L) (length (split_ws line)) then ValueError
  else IndexError.

(** The keys that the fuzzy branch of a rank assigns. *)
Definition fuzzy_keys (rank : nat) : list string :=
  match fuzzy_key rank with
  | Some key => [key]
  | None => []
  end.

(** ** The commands file ([helper/run.py]) *)

(** The truth value of a string: it is not empty. *)
Definition truthy (s : string) : bool :=
  match s with
  | EmptyString => false
  | String _ _ => true
  end.

(** [parse_commands]: [commands] is the list that [f.readlines()] returns
    for the commands file. *)
Fixpoint parse_commands (commands : list string) : list string :=
  match commands with
  | [] => []
  | line :: rest =>
      if truthy (strip line) then strip line :: parse_commands rest
      else parse_commands rest
  end.

(** A line of whitespace only. *)
Definition blank (s : string) : bool := all_chars isspace s.

(** ** The report files of a directory ([helper/utils.py]) *)

(** [os.path.basename] of a POSIX path: what follows the last slash. *)
Fixpoint basename (p : string) : string :=
  match p with
  | EmptyString => EmptyString
  | String _ p' => if contains "/" p then basename p' else p
  end.

(** The sort key of [get_output_files]:
    [int(os.path.basename(x).split('.')[0])]. *)
Definition file_number (x : string) : result Z :=
  do stem <- PyList.item (split "." (basename x)) 0;
  py_int_r stem.

(** [l.sort(key=key)] with integer keys.  The key of every element is
    computed first, in the order of the list, and the first error is
    raised; then the elements are put in ascending order of their keys,
    elements with equal keys staying in the order they had. *)
Fixpoint sort_keys (key : string -> result Z) (l : list string)
    : result (list (Z * string)) :=
  match l with
  | [] => Ok []
  | x :: rest =>
      do k <- key x;
      do keyed <- sort_keys key rest;
      Ok ((k, x) :: keyed)
  end.

Fixpoint insert_by_key (a : Z * string) (l : list (Z * string))
    : list (Z * string) :=
  match l with
  | [] => [a]
  | b :: rest =>
      if (a.1 <=? b.1)%Z then a :: l else b :: insert_by_key a rest
  end.

Definition list_sort (key : string -> result Z) (l : list string)
    : result (list string) :=
  do keyed <- sort_keys key l;
  Ok ((foldr insert_by_key [] keyed).*2).

(** [get_output_files].  [cdft_txt_files] and [all_txt_files] are the lists
    that the two calls of [glob.glob] return.  [set_order] is the order in
    which [list(...)] enumerates a set, which Python leaves open; it is
    applied to the members of [set(all_txt_files) - set(cdft_txt_files)]. *)
Definition get_output_files (set_order : list string -> list string)
    (cdft_txt_files all_txt_files : list string)
    : result (list string * list string) :=
  let other_txt_files :=
    set_order (list_difference (remove_dups all_txt_files) cdft_txt_files) in
  do other_txt_files <- list_sort file_number other_txt_files;
  Ok (cdft_txt_files, other_txt_files).

(** An enumeration of sets: it lists the given members, in some order. *)
Definition enumerates (set_order : list string -> list string) : Prop :=
  forall l, set_order l ≡ₚ l.

(** The files of a list stand in the order of their numbers. *)
Definition in_number_order (l : list string) : Prop :=
  forall i j x y, i < j -> l !! i = Some x -> l !! j = Some y ->
    exists m n, file_number x = Ok m /\ file_number y = Ok n /\ (m <= n)%Z.

(** The number of a file, [0] where it has none. *)
Definition number_of (x : string) : Z :=
  match file_number x with
  | Ok n => n
  | Raise _ => 0%Z
  end.

(** ** The wave function files and their runs ([helper/utils.py],
    [helper/run.py]) *)

(** [s.endswith(suffix)] *)
Fixpoint ends_with (suffix s : string) : bool :=
  String.eqb suffix s
  || match s with
     | String _ s' => ends_with suffix s'
     | EmptyString => false
     end.

(** [os.path.join(a, b)] for POSIX paths. *)
Definition path_join (a b : string) : string :=
  if starts_with "/" b then b
  else if negb (truthy a) || ends_with "/" a then a +:+ b
  else a +:+ "/" +:+ b.

(** The loop of [get_input_files] over the names of the directory. *)
Fixpoint input_files_loop (input_dir extension : string) (names : list string)
    (input_files : list string) : list string :=
  match names with
  | [] => input_files
  | file :: rest =>
      input_files_loop input_dir extension rest
        (if ends_with ("." +:+ extension) file
         then input_files ++ [path_join input_dir file]
         else input_files)
  end.

(** [get_input_files]; [listing] is what [os.listdir(input_dir)] returns. *)
Definition get_input_files (listing : list string) (input_dir extension : string)
    : list string :=
  input_files_loop input_dir extension listing [].

(** [s.replace(old, new)] for an [old] that is not empty: the occurrences
    of [old] found from left to right, none overlapping, are replaced.
    [skip] counts the characters of an occurrence still to pass over. *)
Fixpoint replace_go (old new : string) (skip : nat) (s : string) : string :=
  match s with
  | EmptyString => EmptyString
  | String c s' =>
      match skip with
      | S k => replace_go old new k s'
      | O =>
          if starts_with old s
          then new +:+ replace_go old new (String.length old - 1) s'
          else String c (replace_go old new 0 s')
      end
  end.

Definition replace (old new s : string) : string := replace_go old new 0 s.

Definition newline : string := String (ascii_of_N 10) EmptyString.

(** [_run].  [isfile] is the answer of [os.path.isfile].  The result is the
    command line handed to the shell by [subprocess.run], and the name of
    the output file, which is what the function returns. *)
Definition _run (isfile : string -> bool) (wave_file : string)
    (commands : list string) : result (string * string) :=
  if negb (isfile wave_file) then Raise ValueError
  else
    let input_stream := join_lines commands in
    let output_file := replace ".fchk" ".txt" wave_file in
    let args :=
      "Multiwfn " +:+ wave_file +:+ " << EOF > " +:+ output_file +:+ newline
      +:+ input_stream +:+ newline +:+ "EOF" +:+ newline in
    Ok (args, output_file).

(** The order of the keys of a sort. *)
Definition key_le (a b : Z * string) : Prop := (a.1 <= b.1)%Z.

(** ** The records of a batch ([main.py]) *)

(** The loop of [main] over the pairs of files: the record of each pair is
    appended to [results_list], and an error of [get_descriptors] ends the
    run.  [read_contents] gives the text of each file. *)
Fixpoint results_loop (read_contents : string -> string)
    (pairs : list (string * string)) (results_list : list descriptors)
    : result (list descriptors) :=
  match pairs with
  | [] => Ok results_list
  | (output_file, cdft_file) :: rest =>
      do result <- get_descriptors (read_contents cdft_file)
                     (read_contents output_file);
      results_loop read_contents rest (results_list ++ [result])
  end.

(** [main] from the call of [get_output_files] to the end of the loop that
    fills [results_list].  The pair that [get_output_files] returns is
    unpacked as [output_files, cdft_files]. *)
Definition main_results (read_contents : string -> string)
    (set_order : list string -> list string)
    (cdft_txt_files all_txt_files : list string) : result (list descriptors) :=
  do files <- get_output_files set_order cdft_txt_files all_txt_files;
  let '(output_files, cdft_files) := files in
  results_loop read_contents (zip output_files cdft_files) [].

(** The list of records of a run that returned. *)
Definition records (r : result (list descriptors)) : list descriptors :=
  match r with
  | Ok l => l
  | Raise _ => []
  end.

(** The texts of a directory with one CDFT report and one general report. *)
Definition sample_files (file : string) : string :=
  if ends_with "-CDFT.txt" file then "Chemical potential: -0.5 eV"
  else line_atoms_two.

(** ** The tables of the specification for the repeated headings

    One rule of a surface summary: the field, the offset from the heading
    of the line it is read from, the two markers around its number and the
    factor of its unit conversion, if it has one. *)
Record field_rule : Type := mkFieldRule {
  rule_key : string;
  rule_offset : nat;
  rule_first : string;
  rule_second : string;
  rule_factor : option Q
}.

(** The rules of the logical section that an occurrence rank of the surface
    summary heading stands for. *)
Definition section_fields (rank : nat) : list field_rule :=
  match rank with
  | 1 => [ mkFieldRule "volume" 2 "Volume: " "Bohr^3" (Some (bohr ^ 3)%Q);
           mkFieldRule "surface_area" 4 "Overall surface area: " "Bohr^2"
             (Some (bohr ^ 2)%Q) ]
  | 2 => [ mkFieldRule "ESP_min" 4 " Minimal value:  " "kcal/mol   Maximal" None;
           mkFieldRule "ESP_max" 4 "Maximal value: " "kcal/mol" None;
           mkFieldRule "MPI" 17 ":" "eV" None ]
  | 3 => [ mkFieldRule "ALIE_min" 4 " Minimal value:  " "eV,  " None;
           mkFieldRule "ALIE_max" 4 "Maximal value: " "eV" None;
           mkFieldRule "ALIE_avg" 8 "value:" "a.u. " None ]
  | 4 => [ mkFieldRule "LEA_min" 4 " Minimal value:  " "eV,  " None;
           mkFieldRule "LEA_max" 4 "Maximal value: " "eV" None;
           mkFieldRule "LEA_avg" 8 "value:" "a.u. " None ]
  | 5 => [ mkFieldRule "LEAE_min" 4 " Minimal value:  " "eV,  " None;
           mkFieldRule "LEAE_max" 4 "Maximal value: " "eV" None ]
  | _ => []
  end.

(** The value stored for a number read under a rule. *)
Definition converted (factor : option Q) (x : pyfloat) : pyfloat :=
  match factor with
  | Some c => fscale c x
  | None => x
  end.

(** The atom sections in the order in which a line is tested for their
    anchors: the anchor, the offset of the window from the anchor line, the
    charge type of the rows and the key of the series. *)
Definition atom_sections : list (string * nat * string * string) :=
  [ (anchor_hirshfeld, 8, "Hirshfeld", "Hirshfeld_charge");
    (anchor_adch, 6, "ADCH", "ADCH_charge");
    (anchor_resp, 3, "RESP", "RESP_charge");
    (anchor_spin, 1, "spin", "spin_population") ].

(** * Properties *)

(** ** The error monad and the loops *)

Lemma rbind_ok {A B : Type} (m : result A) (k : A -> result B) (b : B) :
  rbind m k = Ok b -> exists a, m = Ok a /\ k a = Ok b.
Proof. destruct m; simpl; intros H; [eauto | discriminate]. Qed.

Ltac bind_inv H :=
  let a := fresh "a" in
  let Ha := fresh "Hbind" in
  apply rbind_ok in H; destruct H as (a & Ha & H).

(** ** The Molecule dictionary *)

(** C9: [Molecule.from_dict(m.to_dict())] is a [Molecule] with the name, the
    atoms and the charges of [m]. *)
Theorem from_dict_to_dict (m : Molecule) :
  exists m', from_dict (to_dict m) = Ok m'
    /\ name m' = name m /\ atoms m' = atoms m /\ charges m' = charges m.
Proof.
  exists m. destruct m as [n a c]. split; [|done].
  unfold from_dict, to_dict, getitem. simpl.
  rewrite lookup_insert_ne by done. rewrite lookup_insert_ne by done.
  rewrite lookup_insert_eq. simpl.
  rewrite lookup_insert_ne by done. rewrite lookup_insert_eq. simpl.
  rewrite lookup_insert_eq. simpl. reflexivity.
Qed.

(** ** The row readers *)

(** C10: with a charge type that is none of ['RESP'], ['Hirshfeld'],
    ['ADCH'], ['spin'], [_read_charge] returns the empty [Molecule] (name
    [None], no atoms, no charges) whatever the lines are, and raises
    nothing. *)
Theorem _read_charge_unknown_type (charge_lines : list string) (charge_type : string) :
  charge_type <> "RESP" -> charge_type <> "Hirshfeld" ->
  charge_type <> "ADCH" -> charge_type <> "spin" ->
  _read_charge charge_lines charge_type = Ok (mkMolecule None [] []).
Proof.
  intros H1 H2 H3 H4. unfold _read_charge, when_type.
  apply String.eqb_neq in H1, H2, H3, H4.
  rewrite H1, H2, H3, H4. reflexivity.
Qed.

Lemma _read_charge_unknown_type_witness :
  _read_charge ["not a row"; "C 1 0.5"] "Mulliken" = Ok (mkMolecule None [] []).
Proof.
  apply (_read_charge_unknown_type ["not a row"; "C 1 0.5"] "Mulliken");
    discriminate.
Defined.

Lemma read_rows_map_rows row ls acc :
  read_rows row ls acc =
  do rows <- map_rows row ls; Ok (acc.1 ++ rows.*1, acc.2 ++ rows.*2).
Proof.
  revert acc. induction ls as [|line rest IH]; intros [a c]; simpl.
  - by rewrite !app_nil_r.
  - destruct (row line) as [[l v]|e]; simpl; [|done].
    rewrite IH. simpl. destruct (map_rows row rest) as [rows|e]; simpl; [|done].
    by rewrite <- !app_assoc.
Qed.

Lemma map_rows_ext row1 row2 ls :
  (forall line, row1 line = row2 line) -> map_rows row1 ls = map_rows row2 ls.
Proof.
  intros H. induction ls as [|line rest IH]; simpl; [done|].
  by rewrite H, IH.
Qed.

Lemma read_rows_series row L ls :
  (forall line, row line = row_by_layout L line) ->
  (do s <- read_rows row ls ([], []); Ok (mkMolecule None s.1 s.2))
  = series_by_layout L ls.
Proof.
  intros H. rewrite read_rows_map_rows. unfold series_by_layout.
  rewrite (map_rows_ext _ _ _ H).
  by destruct (map_rows (row_by_layout L) ls).
Qed.

Ltac row_eq :=
  intros line; unfold row_by_layout; cbn -[split_ws py_float strip];
  repeat match goal with
         | |- context [PyList.item ?l ?i] => destruct (PyList.item l i); cbn -[split_ws py_float strip]; try done
         | |- context [py_float_r ?s] => destruct (py_float_r s); cbn -[split_ws py_float strip]; try done
         end.

Lemma row_RESP_layout line : row_RESP line = row_by_layout layout_RESP line.
Proof. revert line. unfold row_RESP. row_eq. Qed.

Lemma row_Hirshfeld_layout line : row_Hirshfeld line = row_by_layout layout_Hirshfeld line.
Proof. revert line. unfold row_Hirshfeld. row_eq. Qed.

Lemma row_ADCH_layout line : row_ADCH line = row_by_layout layout_ADCH line.
Proof. revert line. unfold row_ADCH. row_eq. Qed.

Lemma row_spin_layout line : row_spin line = row_by_layout layout_spin line.
Proof. revert line. unfold row_spin. row_eq. Qed.

Lemma row_fuzzy_layout line : row_fuzzy line = row_by_layout layout_fuzzy line.
Proof. revert line. unfold row_fuzzy. row_eq. Qed.

Lemma _read_charge_RESP ls : _read_charge ls "RESP" = series_by_layout layout_RESP ls.
Proof.
  rewrite <- (read_rows_series row_RESP) by apply row_RESP_layout.
  unfold _read_charge, when_type; simpl.
  by destruct (read_rows row_RESP ls ([], [])).
Qed.

Lemma _read_charge_Hirshfeld ls :
  _read_charge ls "Hirshfeld" = series_by_layout layout_Hirshfeld ls.
Proof.
  rewrite <- (read_rows_series row_Hirshfeld) by apply row_Hirshfeld_layout.
  unfold _read_charge, when_type; simpl.
  by destruct (read_rows row_Hirshfeld ls ([], [])).
Qed.

Lemma _read_charge_ADCH ls : _read_charge ls "ADCH" = series_by_layout layout_ADCH ls.
Proof.
  rewrite <- (read_rows_series row_ADCH) by apply row_ADCH_layout.
  unfold _read_charge, when_type; simpl.
  by destruct (read_rows row_ADCH ls ([], [])).
Qed.

Lemma _read_charge_spin ls : _read_charge ls "spin" = series_by_layout layout_spin ls.
Proof.
  rewrite <- (read_rows_series row_spin) by apply row_spin_layout.
  unfold _read_charge, when_type; simpl.
  by destruct (read_rows row_spin ls ([], [])).
Qed.

Lemma _read_fuzzy_known ls key :
  key ∈ fuzzy_names -> _read_fuzzy ls key = series_by_layout layout_fuzzy ls.
Proof.
  intros Hk. rewrite <- (read_rows_series row_fuzzy) by apply row_fuzzy_layout.
  unfold fuzzy_names in Hk.
  repeat (apply elem_of_cons in Hk as [-> | Hk]);
    [| | | by apply elem_of_nil in Hk];
    unfold _read_fuzzy, when_type; simpl;
    by destruct (read_rows row_fuzzy ls ([], [])).
Qed.

(** C4: every per-atom reader follows the declared token layout of its
    type, on every window of rows: RESP label tokens 0 and 1, value token 2;
    Hirshfeld label tokens 4 and 5 trimmed, value token 7; ADCH label token
    1 and a closing parenthesis, value token 3; spin label tokens 1 and 2,
    value token 4; the three fuzzy-density series label tokens 0 and 1,
    value token 2. *)
Theorem readers_follow_layouts (ls : list string) :
  _read_charge ls "RESP" = series_by_layout layout_RESP ls
  /\ _read_charge ls "Hirshfeld" = series_by_layout layout_Hirshfeld ls
  /\ _read_charge ls "ADCH" = series_by_layout layout_ADCH ls
  /\ _read_charge ls "spin" = series_by_layout layout_spin ls
  /\ _read_fuzzy ls "electron_density" = series_by_layout layout_fuzzy ls
  /\ _read_fuzzy ls "Laplacian_electron_density" = series_by_layout layout_fuzzy ls
  /\ _read_fuzzy ls "kinetic_energy_density" = series_by_layout layout_fuzzy ls.
Proof.
  split; [apply _read_charge_RESP|].
  split; [apply _read_charge_Hirshfeld|].
  split; [apply _read_charge_ADCH|].
  split; [apply _read_charge_spin|].
  repeat split; apply _read_fuzzy_known; unfold fuzzy_names; set_solver.
Qed.

(** ** Scans by occurrence rank *)

Lemma for_enumerate_by_rank anchor
    (handler : list string -> nat -> nat -> descriptors -> result descriptors)
    (lines : list string) :
  forall ls idx index d,
    for_enumerate
      (fun idx line (s : nat * descriptors) =>
         let '(index, d) := s in
         if contains anchor line then
           let index := index + 1 in
           do d' <- handler lines idx index d; Ok (index, d')
         else Ok (index, d)) idx ls (index, d)
    = do d' <- by_rank (handler lines) index (occurrences_from anchor idx ls) d;
      Ok (index + length (occurrences_from anchor idx ls), d').
Proof.
  induction ls as [|line rest IH]; intros idx index d; simpl.
  - by rewrite Nat.add_0_r.
  - destruct (contains anchor line); simpl.
    + rewrite Nat.add_1_r.
      destruct (handler lines idx (S index) d) as [d1|e]; simpl; [|done].
      rewrite IH. rewrite Nat.add_succ_r. done.
    + apply IH.
Qed.

Lemma surface_pass_by_rank lines d :
  surface_pass lines d
  = by_rank (surface_section lines) 0 (occurrences summary_heading lines) d.
Proof.
  unfold surface_pass, occurrences.
  rewrite (for_enumerate_by_rank summary_heading surface_section lines lines 0 0 d
           : for_enumerate (surface_body lines) 0 lines (0, d) = _).
  by destruct (by_rank _ _ _ _).
Qed.

Lemma fuzzy_pass_by_rank lines d :
  fuzzy_pass lines d
  = by_rank (fuzzy_rank lines) 0 (occurrences anchor_fuzzy lines) d.
Proof.
  unfold fuzzy_pass, occurrences.
  rewrite (for_enumerate_by_rank anchor_fuzzy fuzzy_rank lines lines 0 0 d
           : for_enumerate (fuzzy_body lines) 0 lines (0, d) = _).
  by destruct (by_rank _ _ _ _).
Qed.

(** ** The surface summaries: one logical section per rank *)

Ltac split_chain :=
  repeat match goal with
         | |- context [rbind ?m _] => destruct m; cbn [rbind]
         end.

Lemma surface_section_frame lines idx rank d d' :
  surface_section lines idx rank d = Ok d' ->
  forall k, k ∉ section_keys rank -> d' !! k = d !! k.
Proof.
  destruct rank as [|[|[|[|[|[|rank]]]]]]; unfold surface_section, section_keys;
    split_chain; intros H k Hk; try discriminate;
    injection H as <-; try done;
    repeat (rewrite lookup_insert_ne; [|intros <-; apply Hk; set_solver]); done.
Qed.

Lemma section_keys_disjoint r1 r2 k :
  r1 <> r2 -> k ∈ section_keys r1 -> k ∉ section_keys r2.
Proof.
  intros Hne H1 H2.
  destruct r1 as [|[|[|[|[|[|r1]]]]]]; simpl in H1;
    try (by apply elem_of_nil in H1);
    repeat (apply elem_of_cons in H1 as [-> | H1]);
    try (by apply elem_of_nil in H1);
    destruct r2 as [|[|[|[|[|[|r2]]]]]]; simpl in H2; try done;
    try (by apply elem_of_nil in H2);
    repeat (apply elem_of_cons in H2 as [? | H2]; [discriminate|]);
    by apply elem_of_nil in H2.
Qed.

Lemma occurrences_from_lookup anchor :
  forall ls i0 k line,
    ls !! k = Some line -> contains anchor line = true ->
    occurrences_from anchor i0 ls !! count_lines anchor (take k ls) = Some (i0 + k).
Proof.
  induction ls as [|l rest IH]; intros i0 k line Hk Hc; [done|].
  destruct k as [|k]; simpl in *.
  - injection Hk as ->. rewrite Hc. simpl. by rewrite Nat.add_0_r.
  - rewrite <- Nat.add_succ_comm.
    destruct (contains anchor l); simpl; by eapply IH.
Qed.

Lemma occurrences_rank anchor lines idx line :
  lines !! idx = Some line -> contains anchor line = true ->
  exists r, occurrence_rank anchor lines idx = S r
    /\ occurrences anchor lines !! r = Some idx.
Proof.
  intros Hk Hc. eexists; split; [reflexivity|].
  apply (occurrences_from_lookup anchor lines 0 idx line Hk Hc).
Qed.

Section ByRank.
Variable handler : nat -> nat -> descriptors -> result descriptors.
Variable keys : nat -> list string.
Hypothesis frame : forall idx rank d d',
    handler idx rank d = Ok d' -> forall k, k ∉ keys rank -> d' !! k = d !! k.
Hypothesis disjoint : forall r1 r2 k, r1 <> r2 -> k ∈ keys r1 -> k ∉ keys r2.

Lemma by_rank_frame occ : forall rank d d',
    by_rank handler rank occ d = Ok d' ->
    forall k, (forall r, rank < r -> k ∉ keys r) -> d' !! k = d !! k.
Proof.
  induction occ as [|idx rest IH]; intros rank d d' H k Hk; simpl in H.
  - by injection H as <-.
  - bind_inv H. rewrite (IH _ _ _ H k).
    + eapply frame; [done|]. apply Hk. lia.
    + intros r Hr. apply Hk. lia.
Qed.

Lemma by_rank_lookup occ : forall rank d d' r idx,
    by_rank handler rank occ d = Ok d' -> occ !! r = Some idx ->
    exists d0 d1, handler idx (rank + S r) d0 = Ok d1
      /\ forall k, k ∈ keys (rank + S r) -> d' !! k = d1 !! k.
Proof.
  induction occ as [|i rest IH]; intros rank d d' r idx H Hr; [done|].
  simpl in H. bind_inv H. destruct r as [|r]; simpl in Hr.
  - injection Hr as ->. rewrite Nat.add_1_r. exists d, a. split; [done|].
    intros k Hk. eapply by_rank_frame; [done|].
    intros r Hlt. eapply disjoint; [|done]. lia.
  - destruct (IH _ _ _ _ _ H Hr) as (d0 & d1 & H1 & H2).
    exists d0, d1. by rewrite <- Nat.add_succ_comm.
Qed.
End ByRank.

Lemma item_ok {A : Type} (l : list A) (i : nat) (x : A) :
  PyList.item l i = Ok x -> l !! i = Some x.
Proof. unfold PyList.item. by destruct (l !! i); intros [= ->]. Qed.

Lemma marked_float_text first second line x :
  marked_float first second line = Ok x ->
  exists text, between_markers first second line = Ok text
    /\ py_float text = Some x.
Proof.
  unfold marked_float. intros H. bind_inv H. exists a. split; [done|].
  unfold py_float_r in H. destruct (py_float a); [|discriminate].
  by injection H as ->.
Qed.

(** What a branch of the surface pass leaves under the keys of its rules. *)
Lemma surface_section_fields lines idx rank d d' rule :
  surface_section lines idx rank d = Ok d' ->
  rule ∈ section_fields rank ->
  exists l text x,
    lines !! (idx + rule_offset rule) = Some l
    /\ between_markers (rule_first rule) (rule_second rule) l = Ok text
    /\ py_float text = Some x
    /\ d' !! rule_key rule = Some (DFloat (converted (rule_factor rule) x)).
Proof.
  intros H Hin.
  destruct rank as [|[|[|[|[|[|rank]]]]]]; simpl in Hin;
    try (by apply elem_of_nil in Hin);
    unfold surface_section in H; cbv zeta in H; repeat bind_inv H;
    injection H as <-;
    rewrite <- ?Nat.add_assoc in *; cbn [Nat.add] in *;
    repeat (apply elem_of_cons in Hin as [-> | Hin]);
    try (by apply elem_of_nil in Hin);
    cbn [rule_key rule_offset rule_first rule_second rule_factor converted];
    match goal with
    | Hi : PyList.item lines _ = Ok ?l, Hm : marked_float _ _ ?l = Ok ?x |- _ =>
        let text := fresh "text" in
        let Ht := fresh "Ht" in
        let Hf := fresh "Hf" in
        destruct (marked_float_text _ _ _ _ Hm) as (text & Ht & Hf);
        exists l, text, x;
        split; [by apply item_ok|]; split; [exact Ht|]; split; [exact Hf|];
        repeat first [ rewrite lookup_insert_eq | rewrite lookup_insert_ne by done ];
        reflexivity
    end.
Qed.

Lemma section_fields_keys rank : rule_key <$> section_fields rank = section_keys rank.
Proof. by destruct rank as [|[|[|[|[|[|rank]]]]]]. Qed.

Lemma count_lines_take_lt anchor (lines : list string) : forall i j line,
  i < j -> lines !! i = Some line -> contains anchor line = true ->
  count_lines anchor (take i lines) < count_lines anchor (take j lines).
Proof.
  induction lines as [|l rest IH]; intros i j line Hij Hi Hc; [done|].
  destruct j as [|j]; [lia|]. destruct i as [|i]; simpl in Hi.
  - injection Hi as ->. simpl. rewrite Hc. lia.
  - simpl. specialize (IH i j line ltac:(lia) Hi Hc).
    destruct (contains anchor l); simpl; lia.
Qed.


Lemma unwrap_ok (r : result descriptors) : is_ok r = true -> r = Ok (unwrap r).
Proof. destruct r; [reflexivity | discriminate]. Defined.


Example sample_surface_fields :
  occurrence_rank summary_heading sample_surface 5 = 2
  /\ sample_surface_result !! "ESP_min" = Some (DFloat (FNum (-81 # 2)))
  /\ sample_surface_result !! "ESP_max" = Some (DFloat (FNum (209 # 4)))
  /\ sample_surface_result !! "MPI" = Some (DFloat (FNum (3 # 4)))
  /\ sample_surface_result !! "volume" = Some (DFloat (fscale (bohr ^ 3) (FNum 200)))
  /\ sample_surface_result !! "ALIE_min" = Some DNone.
Proof. vm_compute. repeat split. Qed.

(** ** The atom sections: the window starts at the first equal line *)

Lemma index_first (lines : list string) :
  forall j line,
    lines !! j = Some line ->
    exists i, PyList.index lines line = Some i /\ i <= j
      /\ lines !! i = Some line
      /\ forall k, k < i -> lines !! k <> Some line.
Proof.
  induction lines as [|l rest IH]; intros j line Hj; [done|].
  simpl. destruct (String.eqb_spec l line) as [->|Hne].
  - exists 0. repeat split; [lia|]. intros k Hk. lia.
  - destruct j as [|j]; simpl in Hj; [congruence|].
    destruct (IH _ _ Hj) as (i & Hi & Hle & Hl & Hfirst).
    exists (S i). rewrite Hi. repeat split; [lia|done|].
    intros [|k] Hk; simpl; [congruence|]. apply Hfirst. lia.
Qed.

Lemma index_of_member (lines : list string) (line : string) :
  line ∈ lines -> exists i, PyList.index lines line = Some i.
Proof.
  intros Hin. apply list_elem_of_lookup in Hin as [j Hj].
  destruct (index_first lines j line Hj) as (i & Hi & _). eauto.
Qed.

Lemma window_section_iff lines start ty key d d' :
  window_section lines start ty key d = Ok d' <->
  exists n m, d !! "atom_num" = Some (DInt n)
    /\ _read_charge (PyList.slice lines (Z.of_nat start) (Z.of_nat start + n)) ty
       = Ok m
    /\ d' = <[key := DMol m]> d.
Proof.
  unfold window_section, add_atom_num, getitem. split.
  - destruct (d !! "atom_num") as [[| n | |]|]; cbn [or_raise rbind]; try done.
    destruct (_read_charge _ ty) as [m|] eqn:E; cbn [rbind]; [|done].
    intros [= <-]. by exists n, m.
  - intros (n & m & -> & Hm & ->). cbn [or_raise rbind]. by rewrite Hm.
Qed.



(** Both occurrences of the anchor read the row after the first one: the row
    after the second occurrence is never read. *)
Example sample_duplicate_reads_first_window :
  field "spin_population" (parse_lines sample_duplicate)
  = Ok (Some (DMol (mkMolecule None ["C1"] [FNum (1 # 2)]))).
Proof. vm_compute. reflexivity. Qed.

(** ** Substrings and separators *)

Local Arguments String.append : simpl nomatch.

Lemma append_assoc_str (a b c : string) : (a +:+ b) +:+ c = a +:+ (b +:+ c).
Proof. induction a as [|x a IH]; simpl; [done | by f_equal]. Qed.

Lemma starts_with_spec (p s : string) :
  starts_with p s = true <-> exists b, s = p +:+ b.
Proof.
  revert s. induction p as [|x p IH]; intros s; simpl.
  - split; [eauto | done].
  - destruct s as [|y s].
    + split; [done | intros [b Hb]; discriminate].
    + rewrite andb_true_iff, IH. split.
      * intros [Hxy [b ->]]. apply Ascii.eqb_eq in Hxy as ->. eauto.
      * intros [b Hb]. injection Hb as -> ->. split; [apply Ascii.eqb_refl | eauto].
Qed.

Lemma contains_spec (p s : string) :
  contains p s = true <-> exists a b, s = a +:+ p +:+ b.
Proof.
  induction s as [|y s IH]; simpl.
  - rewrite orb_false_r, starts_with_spec. split.
    + intros [b Hb]. by exists EmptyString, b.
    + intros (a & b & H). destruct a; simpl in H; [eauto | discriminate].
  - rewrite orb_true_iff, starts_with_spec, IH. split.
    + intros [[b Hb] | (a & b & ->)].
      * by exists EmptyString, b.
      * by exists (String y a), b.
    + intros (a & b & H). destruct a as [|x a]; simpl in H.
      * left. eauto.
      * injection H as -> ->. right. eauto.
Qed.

Lemma contains_trans (p a s : string) :
  contains p a = true -> contains a s = true -> contains p s = true.
Proof.
  rewrite !contains_spec. intros (a1 & b1 & ->) (a2 & b2 & ->).
  exists (a2 +:+ a1), (b1 +:+ b2).
  by rewrite !append_assoc_str.
Qed.

Lemma contains_false_sub (p a s : string) :
  contains p s = false -> contains a s = true -> contains p a = false.
Proof.
  intros Hp Ha. destruct (contains p a) eqn:E; [|done].
  by rewrite (contains_trans _ _ _ E Ha) in Hp.
Qed.

Lemma split_go_not_nil sep k s : split_go sep k s <> [].
Proof.
  revert k. induction s as [|c s IH]; intros k; simpl; [done|].
  destruct k; [|apply IH].
  destruct (starts_with sep (String c s)); [done|].
  specialize (IH 0). by destruct (split_go sep 0 s).
Qed.

Lemma split_without_separator sep s :
  contains sep s = false -> split sep s = [s].
Proof.
  unfold split. induction s as [|c s IH]; simpl; [done|].
  rewrite orb_false_iff. intros [-> H]. by rewrite (IH H).
Qed.

Lemma split_with_separator sep s :
  sep <> EmptyString -> contains sep s = true -> 2 <= length (split sep s).
Proof.
  intros Hsep. unfold split. induction s as [|c s IH]; simpl.
  - rewrite orb_false_r. destruct sep; [done | discriminate].
  - destruct (starts_with sep (String c s)) eqn:E; simpl.
    + intros _. pose proof (split_go_not_nil sep (String.length sep - 1) s).
      destruct (split_go sep (String.length sep - 1) s); [done | simpl; lia].
    + intros H. specialize (IH H).
      destruct (split_go sep 0 s); simpl in *; lia.
Qed.

Lemma split_go_head_prefix sep s h t :
  split_go sep 0 s = h :: t -> exists b, s = h +:+ b.
Proof.
  revert h t. induction s as [|c s IH]; intros h t; simpl.
  - intros [= <- <-]. by exists EmptyString.
  - destruct (starts_with sep (String c s)).
    + intros [= <- <-]. by exists (String c s).
    + destruct (split_go sep 0 s) as [|h' t'] eqn:E; simpl.
      * by destruct (split_go_not_nil sep 0 s).
      * intros [= <- <-]. destruct (IH _ _ eq_refl) as [b ->].
        by exists b.
Qed.

Lemma split_go_piece sep s :
  forall k x, x ∈ split_go sep k s -> exists a b, s = a +:+ x +:+ b.
Proof.
  induction s as [|c s IH]; intros k x; simpl.
  - intros ->%list_elem_of_singleton. by exists EmptyString, EmptyString.
  - destruct k as [|k].
    + destruct (starts_with sep (String c s)).
      * intros [-> | Hx]%elem_of_cons.
        -- by exists EmptyString, (String c s).
        -- destruct (IH _ _ Hx) as (a & b & ->). by exists (String c a), b.
      * destruct (split_go sep 0 s) as [|h t] eqn:E; simpl.
        -- by destruct (split_go_not_nil sep 0 s).
        -- intros [-> | Hx]%elem_of_cons.
           ++ destruct (split_go_head_prefix _ _ _ _ E) as [b ->].
              by exists EmptyString, b.
           ++ destruct (IH 0 x) as (a & b & ->); [rewrite E; by right|].
              by exists (String c a), b.
    + intros Hx. destruct (IH _ _ Hx) as (a & b & ->). by exists (String c a), b.
Qed.

Lemma split_piece_contains sep s x :
  x ∈ split sep s -> contains x s = true.
Proof. intros H. apply contains_spec. by eapply split_go_piece. Qed.

(** [line.split(first)[1].split(second)[0]] when [first] occurs in the line
    and [second] does not: the whole field after the first [first]. *)
Lemma between_markers_no_second first second line :
  first <> EmptyString ->
  contains first line = true -> contains second line = false ->
  exists seg, PyList.item (split first line) 1 = Ok seg
    /\ between_markers first second line = Ok seg.
Proof.
  intros Hne H1 H2. pose proof (split_with_separator _ _ Hne H1) as Hlen.
  destruct (split first line) as [|x [|seg rest]] eqn:E; simpl in Hlen; try lia.
  exists seg. split; [done|]. unfold between_markers. rewrite E. simpl.
  rewrite split_without_separator; [done|].
  eapply contains_false_sub; [done|].
  apply (split_piece_contains first). rewrite E. set_solver.
Qed.

(** ** Scalars between two markers *)

Lemma for_each_app {St : Type} (body : string -> St -> result St) pre post s :
  for_each body (pre ++ post) s = do s1 <- for_each body pre s; for_each body post s1.
Proof.
  revert s. induction pre as [|l pre IH]; intros s; simpl; [done|].
  destruct (body l s); simpl; [apply IH | done].
Qed.

Lemma is_ok_false {A : Type} (r : result A) :
  is_ok r = false <-> exists e, r = Raise e.
Proof. destruct r; simpl; split; try done; eauto. by intros [? ?]. Qed.

Lemma scalar_raise_ends_parse line pre post :
  (forall d, is_ok (scalar_line line d) = false) ->
  is_ok (parse_lines (pre ++ line :: post)) = false.
Proof.
  intros H. unfold parse_lines, scalar_pass. rewrite for_each_app. simpl.
  destruct (for_each scalar_line pre initial_descriptors) as [d1|e]; simpl; [|done].
  specialize (H d1). apply is_ok_false in H as [e ->]. done.
Qed.

Lemma marked_scalar {A : Type} (conv : string -> option A) mk key second line d :
  contains ": " line = true -> contains second line = false ->
  exists seg, PyList.item (split ": " line) 1 = Ok seg
    /\ (do new_str <- between_markers ": " second line;
        do v <- or_raise ValueError (conv new_str);
        Ok (<[key := mk v]> d))
       = convert_or_raise conv mk key seg d.
Proof.
  intros H1 H2.
  destruct (between_markers_no_second ": " second line) as (seg & Hseg & ->);
    try done.
  exists seg. split; [done|]. unfold convert_or_raise. simpl.
  by destruct (conv seg).
Qed.

(** C2 (as the code has it): a line matched by one of the scalar anchors
    with markers always has the begin marker, which is part of the anchor.
    When the end marker is missing from the line the field is not left
    absent: the whole text after the first begin marker is converted; a
    number is stored, anything else raises [ValueError], and a line that
    raises ends the parse of the whole report, sibling scalars included. *)
Theorem scalar_missing_end_marker (line : string) (d : descriptors) :
  (contains " Atoms:  " line = true -> contains "," line = false ->
   exists seg, PyList.item (split ": " line) 1 = Ok seg
     /\ scalar_line line d = convert_or_raise py_int DInt "atom_num" seg d)
  /\ (contains " Atoms:  " line = false ->
      contains " Molecule weight:      " line = true ->
      contains " Da" line = false ->
      exists seg, PyList.item (split ": " line) 1 = Ok seg
        /\ scalar_line line d = convert_or_raise py_float DFloat "mass" seg d)
  /\ (contains " Atoms:  " line = false ->
      contains " Molecule weight:      " line = false ->
      contains " Total energy:    " line = true ->
      contains "Hartree" line = false ->
      exists seg, PyList.item (split ": " line) 1 = Ok seg
        /\ scalar_line line d
           = convert_or_raise py_float DFloat "total_energy" seg d)
  /\ ((forall d', is_ok (scalar_line line d') = false) ->
      forall pre post, is_ok (parse_lines (pre ++ line :: post)) = false).
Proof.
  repeat split.
  - intros Ha He. unfold scalar_line. rewrite Ha.
    apply (marked_scalar py_int DInt); [|done].
    by apply (contains_trans _ " Atoms:  ").
  - intros Ha Hm He. unfold scalar_line. rewrite Ha, Hm.
    apply (marked_scalar py_float DFloat); [|done].
    by apply (contains_trans _ " Molecule weight:      ").
  - intros Ha Hm Ht He. unfold scalar_line. rewrite Ha, Hm, Ht.
    apply (marked_scalar py_float DFloat); [|done].
    by apply (contains_trans _ " Total energy:    ").
  - intros H pre post. by apply scalar_raise_ends_parse.
Qed.

Lemma scalar_missing_end_marker_witness :
  exists seg, PyList.item (split ": " line_bare_energy) 1 = Ok seg
    /\ scalar_line line_bare_energy initial_descriptors
       = convert_or_raise py_float DFloat "total_energy" seg initial_descriptors.
Proof.
  apply (proj1 (proj2 (proj2
           (scalar_missing_end_marker line_bare_energy initial_descriptors))));
    reflexivity.
Defined.

(** C2 as the specification states it does not hold of the code.  The
    line [line_no_hartree] is matched by the anchor of the total energy and
    has no end marker ['Hartree']: the parse raises [ValueError] and returns
    no record, so the atom count of the sibling line is lost too.  On
    [line_bare_energy], which has no end marker either, the field is set,
    not left absent. *)
Lemma scalar_missing_end_marker_counterexample :
  contains " Total energy:    " line_no_hartree = true
  /\ contains "Hartree" line_no_hartree = false
  /\ is_ok (parse_lines [line_atoms]) = true
  /\ parse_lines [line_atoms; line_no_hartree] = Raise ValueError
  /\ contains "Hartree" line_bare_energy = false
  /\ field "total_energy" (parse_lines [line_atoms; line_bare_energy])
     = Ok (Some (DFloat (FNum (-382 # 5)))).
Proof. vm_compute. repeat split. Qed.

(** ** Which line can assign which key *)

Lemma for_each_inv {St : Type} (I : St -> Prop) (body : string -> St -> result St) ls :
  (forall line s s', line ∈ ls -> I s -> body line s = Ok s' -> I s') ->
  forall s s', I s -> for_each body ls s = Ok s' -> I s'.
Proof.
  induction ls as [|l rest IH]; intros Hstep s s' Hs H; simpl in H.
  - by injection H as <-.
  - bind_inv H. eapply IH; [| |done].
    + intros line s1 s2 Hin. apply Hstep. by right.
    + eapply Hstep; [|done|done]. by left.
Qed.

Lemma for_enumerate_inv {St : Type} (I : St -> Prop)
    (body : nat -> string -> St -> result St) ls :
  (forall idx line s s', line ∈ ls -> I s -> body idx line s = Ok s' -> I s') ->
  forall idx s s', I s -> for_enumerate body idx ls s = Ok s' -> I s'.
Proof.
  induction ls as [|l rest IH]; intros Hstep idx s s' Hs H; simpl in H.
  - by injection H as <-.
  - bind_inv H. eapply IH; [| |done].
    + intros i line s1 s2 Hin. apply Hstep. by right.
    + eapply Hstep; [|done|done]. by left.
Qed.

Ltac anchors_of_key H :=
  unfold may_write in H;
  match type of H with
  | context [required_anchors ?k] =>
      let r := eval cbv [required_anchors assoc_anchors anchor_table
                         String.eqb Ascii.eqb Bool.eqb] in (required_anchors k) in
      change (required_anchors k) with r in H
  end;
  cbn [forallb] in H.

(** After an assignment to the key [k0], the value of [key] is unchanged
    unless [key] is [k0], which the anchors found in the line exclude. *)
Ltac other_key Hmw :=
  match goal with
  | |- <[?k0 := _]> _ !! ?key = _ =>
      destruct (decide (key = k0)) as [->|];
      [ exfalso; anchors_of_key Hmw;
        repeat match goal with
               | E : contains _ _ = true |- _ => rewrite E in Hmw; clear E
               end;
        cbn [andb] in Hmw; discriminate
      | by rewrite lookup_insert_ne ]
  end.

Lemma scalar_line_frame line d d' key :
  scalar_line line d = Ok d' -> may_write key line = false -> d' !! key = d !! key.
Proof.
  unfold scalar_line.
  repeat lazymatch goal with
         | |- (if ?c then _ else _) = _ -> _ =>
             destruct c eqn:?;
             [ try match goal with
                   | E : _ && _ = true |- _ => apply andb_prop in E as [? ?]
                   end;
               intros Hrun Hmw; repeat bind_inv Hrun; injection Hrun as <-;
               other_key Hmw
             | ]
         end.
  by intros [= <-] _.
Qed.

Lemma may_write_section_key line rank key :
  contains summary_heading line = true -> key ∈ section_keys rank ->
  may_write key line = true.
Proof.
  intros Hc Hk.
  destruct rank as [|[|[|[|[|[|rank]]]]]]; simpl in Hk;
    try (by apply elem_of_nil in Hk);
    repeat (apply elem_of_cons in Hk as [-> | Hk]);
    try (by apply elem_of_nil in Hk);
    unfold may_write;
    match goal with
    | |- context [required_anchors ?k] =>
        let r := eval cbv [required_anchors assoc_anchors anchor_table
                           String.eqb Ascii.eqb Bool.eqb] in (required_anchors k) in
        change (required_anchors k) with r
    end;
    cbn [forallb]; by rewrite Hc.
Qed.

Lemma surface_body_frame lines idx line s s' key :
  surface_body lines idx line s = Ok s' -> may_write key line = false ->
  s'.2 !! key = s.2 !! key.
Proof.
  destruct s as [index d]. unfold surface_body.
  destruct (contains summary_heading line) eqn:Hc; [|by intros [= <-]].
  intros H Hmw. bind_inv H. injection H as <-. simpl.
  eapply surface_section_frame; [done|].
  intros Hk. by rewrite (may_write_section_key _ _ _ Hc Hk) in Hmw.
Qed.

Lemma window_section_inv lines start ty key d d' :
  window_section lines start ty key d = Ok d' ->
  exists n m, d !! "atom_num" = Some (DInt n)
    /\ _read_charge (PyList.slice lines (Z.of_nat start) (Z.of_nat start + n)) ty = Ok m
    /\ d' = <[key := DMol m]> d.
Proof.
  unfold window_section, add_atom_num, getitem. intros H.
  bind_inv H. bind_inv Hbind.
  destruct (d !! "atom_num") as [v|] eqn:E; [|discriminate].
  injection Hbind0 as <-. destruct v; try discriminate.
  injection Hbind as <-. bind_inv H. injection H as <-. eauto.
Qed.

Lemma atom_line_frame lines line d d' key :
  atom_line lines line d = Ok d' -> may_write key line = false ->
  d' !! key = d !! key.
Proof.
  unfold atom_line, charge_section.
  repeat lazymatch goal with
         | |- (if ?c then _ else _) = _ -> _ =>
             destruct c eqn:?;
             [ intros Hrun Hmw; bind_inv Hrun; cbv zeta in Hrun;
               apply window_section_inv in Hrun as (n & m & _ & _ & ->);
               other_key Hmw
             | ]
         end.
  by intros [= <-] _.
Qed.

Lemma fuzzy_section_inv lines idx key d d' :
  fuzzy_section lines idx key d = Ok d' ->
  exists n m, d !! "atom_num" = Some (DInt n)
    /\ _read_fuzzy (PyList.slice lines (Z.of_nat (idx + 1)) (Z.of_nat (idx + 1) + n)) key
       = Ok m
    /\ d' = <[key := DMol m]> d.
Proof.
  unfold fuzzy_section, add_atom_num, getitem. intros H.
  bind_inv H. bind_inv Hbind.
  destruct (d !! "atom_num") as [v|] eqn:E; [|discriminate].
  injection Hbind0 as <-. destruct v; try discriminate.
  injection Hbind as <-. bind_inv H. injection H as <-. eauto.
Qed.

Lemma fuzzy_body_frame lines idx line s s' key :
  fuzzy_body lines idx line s = Ok s' -> may_write key line = false ->
  s'.2 !! key = s.2 !! key.
Proof.
  destruct s as [index d]. unfold fuzzy_body.
  destruct (contains anchor_fuzzy line) eqn:Hc; [|by intros [= <-]].
  intros H Hmw. bind_inv H. injection H as <-. simpl.
  unfold fuzzy_rank in Hbind.
  destruct (index + 1) as [|[|[|[|r]]]]; try (by injection Hbind as <-);
    apply fuzzy_section_inv in Hbind as (n & m & _ & _ & ->);
    other_key Hmw.
Qed.

(** A line that lacks one of the anchors of a key cannot assign it. *)
Lemma may_write_without_anchor key anchor line :
  anchor ∈ required_anchors key -> contains anchor line = false ->
  may_write key line = false.
Proof.
  unfold may_write. intros Hin Hc.
  destruct (required_anchors key) as [|a l] eqn:E; [done|]. rewrite <- E in *.
  apply not_true_is_false. intros Hall.
  rewrite forallb_forall in Hall.
  apply list_elem_of_In in Hin. specialize (Hall _ Hin). congruence.
Qed.

Lemma parse_lines_frame lines d key :
  parse_lines lines = Ok d ->
  (forall line, line ∈ lines -> may_write key line = false) ->
  d !! key = initial_descriptors !! key.
Proof.
  unfold parse_lines, scalar_pass, surface_pass, atom_pass, fuzzy_pass.
  intros H Hmw.
  bind_inv H. rename a into d1. bind_inv H. bind_inv Hbind0.
  injection Hbind0 as <-. destruct a0 as [i2 d2]. simpl in H.
  bind_inv H. rename a into d3. bind_inv H. injection H as <-.
  destruct a as [i4 d4]. simpl.
  assert (d1 !! key = initial_descriptors !! key) as H1.
  { eapply (for_each_inv (fun s => s !! key = initial_descriptors !! key));
      [|done|done].
    intros line s s' Hin Hs Hstep.
    rewrite <- Hs. eapply scalar_line_frame; [done|]. by apply Hmw. }
  assert (d2 !! key = initial_descriptors !! key) as H2.
  { eapply (for_enumerate_inv (fun s => s.2 !! key = initial_descriptors !! key)
              (surface_body lines) lines _ 0 (0, d1) (i2, d2)); [done|done].
    Unshelve.
    intros idx line s s' Hin Hs Hstep.
    rewrite <- Hs. eapply surface_body_frame; [done|]. by apply Hmw. }
  assert (d3 !! key = initial_descriptors !! key) as H3.
  { eapply (for_each_inv (fun s => s !! key = initial_descriptors !! key));
      [|done|done].
    intros line s s' Hin Hs Hstep.
    rewrite <- Hs. eapply atom_line_frame; [done|]. by apply Hmw. }
  eapply (for_enumerate_inv (fun s => s.2 !! key = initial_descriptors !! key)
            (fuzzy_body lines) lines _ 0 (0, d3) (i4, d4)); [done|done].
  Unshelve.
  intros idx line s s' Hin Hs Hstep.
  rewrite <- Hs. eapply fuzzy_body_frame; [done|]. by apply Hmw.
Qed.

(** ** Absent anchors *)

Lemma required_anchors_initial key :
  required_anchors key <> [] -> initial_descriptors !! key = Some DNone.
Proof.
  unfold required_anchors, anchor_table. cbn [assoc_anchors].
  repeat match goal with
         | |- context [String.eqb ?k key] =>
             destruct (String.eqb_spec k key) as [<-|_];
             [intros _; vm_compute; reflexivity|]
         end.
  done.
Qed.

Lemma for_each_id {St : Type} (body : string -> St -> result St) ls s :
  (forall line, line ∈ ls -> body line s = Ok s) -> for_each body ls s = Ok s.
Proof.
  induction ls as [|l rest IH]; intros H; simpl; [done|].
  rewrite H by (by left). simpl. apply IH. intros line Hin. apply H. by right.
Qed.

Lemma for_enumerate_id {St : Type} (body : nat -> string -> St -> result St) ls :
  forall idx s,
    (forall i line, line ∈ ls -> body i line s = Ok s) ->
    for_enumerate body idx ls s = Ok s.
Proof.
  induction ls as [|l rest IH]; intros idx s H; simpl; [done|].
  rewrite H by (by left). simpl. apply IH. intros i line Hin. apply H. by right.
Qed.

Lemma anchor_free_spec line anchor :
  anchor_free line = true -> anchor ∈ all_anchors -> contains anchor line = false.
Proof.
  unfold anchor_free. rewrite forallb_forall. intros H Hin.
  apply list_elem_of_In in Hin. apply negb_true_iff. by apply H.
Qed.

Ltac listed :=
  apply list_elem_of_In; cbn [In];
  repeat first [left; reflexivity | right].

Ltac no_anchor Hfree :=
  repeat match goal with
         | |- context [contains ?a ?line] =>
             rewrite (anchor_free_spec line a Hfree)
               by (unfold all_anchors; listed);
             cbn [andb]
         end.

Lemma anchor_free_passes lines d :
  (forall line, line ∈ lines -> anchor_free line = true) ->
  scalar_pass lines d = Ok d /\ surface_pass lines d = Ok d
  /\ atom_pass lines d = Ok d /\ fuzzy_pass lines d = Ok d.
Proof.
  intros Hfree.
  unfold scalar_pass, surface_pass, atom_pass, fuzzy_pass.
  repeat split.
  - apply for_each_id. intros line Hin. specialize (Hfree _ Hin).
    unfold scalar_line. no_anchor Hfree. done.
  - rewrite for_enumerate_id; [done|].
    intros i line Hin. specialize (Hfree _ Hin). unfold surface_body.
    no_anchor Hfree. done.
  - apply for_each_id. intros line Hin. specialize (Hfree _ Hin).
    unfold atom_line. no_anchor Hfree. done.
  - rewrite for_enumerate_id; [done|].
    intros i line Hin. specialize (Hfree _ Hin). unfold fuzzy_body.
    no_anchor Hfree. done.
Qed.

Lemma anchor_free_parse lines :
  (forall line, line ∈ lines -> anchor_free line = true) ->
  parse_lines lines = Ok initial_descriptors.
Proof.
  intros Hfree. unfold parse_lines.
  generalize initial_descriptors. intros d.
  destruct (anchor_free_passes lines d Hfree) as (H1 & H2 & H3 & H4).
  rewrite H1. cbn [rbind]. rewrite H2. cbn [rbind]. rewrite H3. cbn [rbind].
  exact H4.
Qed.

(** C3 (as the code has it): when an anchor of a field occurs on no line
    of the report, no line assigns the field, so every record that the parse
    returns holds [None] for it, never zero; and a report in which no anchor
    occurs at all is parsed without error, with [None] under every key.
    (The parse can still raise on the lines of other anchors.) *)
Theorem absent_anchor_leaves_none (contents : string) :
  (forall key anchor d,
      anchor ∈ required_anchors key ->
      (forall line, line ∈ splitlines contents -> contains anchor line = false) ->
      _get_other_descriptors contents = Ok d ->
      d !! key = Some DNone)
  /\ ((forall line, line ∈ splitlines contents -> anchor_free line = true) ->
      exists d, _get_other_descriptors contents = Ok d
        /\ forall key, key ∈ other_keys -> d !! key = Some DNone).
Proof.
  split.
  - intros key anchor d Hin Habs Hd.
    rewrite (parse_lines_frame _ _ key Hd).
    + apply required_anchors_initial. intros E. rewrite E in Hin.
      by apply elem_of_nil in Hin.
    + intros line Hl. eapply may_write_without_anchor; [done|]. by apply Habs.
  - intros Hfree. exists initial_descriptors. split.
    + by apply anchor_free_parse.
    + intros key Hk. unfold other_keys in Hk.
      repeat (apply elem_of_cons in Hk as [-> | Hk]; [vm_compute; reflexivity|]).
      by apply elem_of_nil in Hk.
Qed.

Lemma absent_anchor_leaves_none_witness :
  unwrap (_get_other_descriptors line_atoms) !! "total_energy" = Some DNone.
Proof.
  apply (proj1 (absent_anchor_leaves_none line_atoms)
           "total_energy" " Total energy:    ").
  - vm_compute. set_solver.
  - intros line Hin. vm_compute in Hin.
    apply list_elem_of_singleton in Hin as ->. reflexivity.
  - apply unwrap_ok. vm_compute. reflexivity.
Defined.

(** C3 as the specification states it does not hold of the code: the
    anchor of the atom count occurs on no line of this report, and the parse
    does not complete. *)
Lemma absent_anchor_counterexample :
  required_anchors "atom_num" = [" Atoms:  "]
  /\ existsb (contains " Atoms:  ") (splitlines " Population of atoms") = false
  /\ _get_other_descriptors " Population of atoms" = Raise TypeError.
Proof. vm_compute. repeat split. Qed.

(** ** Atom sections without an atom count *)

Lemma add_atom_num_none start d :
  d !! "atom_num" = Some DNone -> add_atom_num start d = Raise TypeError.
Proof. intros H. unfold add_atom_num, getitem. by rewrite H. Qed.

Lemma atom_line_none lines line d :
  line ∈ lines -> d !! "atom_num" = Some DNone ->
  atom_line lines line d = if charge_anchor line then Raise TypeError else Ok d.
Proof.
  intros Hin Hd. destruct (index_of_member _ _ Hin) as [i Hi].
  unfold atom_line, charge_anchor, charge_section, window_section.
  rewrite Hi. cbn [or_raise rbind]. rewrite !add_atom_num_none by done.
  cbn [rbind].
  by repeat (destruct (contains _ line); cbn [orb]; try done).
Qed.

Lemma atom_loop_none lines d :
  d !! "atom_num" = Some DNone ->
  forall ls, (forall line, line ∈ ls -> line ∈ lines) ->
    for_each (atom_line lines) ls d
    = if existsb charge_anchor ls then Raise TypeError else Ok d.
Proof.
  intros Hd. induction ls as [|l rest IH]; intros Hsub; simpl; [done|].
  rewrite atom_line_none; [|apply Hsub; by left|done].
  destruct (charge_anchor l); simpl; [done|].
  apply IH. intros line Hin. apply Hsub. by right.
Qed.

Lemma fuzzy_loop_none lines d :
  d !! "atom_num" = Some DNone ->
  forall ls idx,
    for_enumerate (fuzzy_body lines) idx ls (0, d)
    = if existsb (contains anchor_fuzzy) ls then Raise TypeError else Ok (0, d).
Proof.
  intros Hd. induction ls as [|l rest IH]; intros idx; simpl; [done|].
  unfold fuzzy_body at 1.
  destruct (contains anchor_fuzzy l); simpl; [|apply IH].
  unfold fuzzy_section. by rewrite add_atom_num_none.
Qed.

Lemma existsb_member {A : Type} (f : A -> bool) (l : list A) (x : A) :
  x ∈ l -> f x = true -> existsb f l = true.
Proof.
  intros Hin Hf. apply existsb_exists. exists x. split; [|done].
  by apply list_elem_of_In.
Qed.

Lemma existsb_orb {A : Type} (f g : A -> bool) (l : list A) :
  existsb (fun x => f x || g x) l = existsb f l || existsb g l.
Proof.
  induction l as [|x l IH]; simpl; [done|]. rewrite IH.
  destruct (f x), (g x), (existsb f l), (existsb g l); done.
Qed.

Lemma no_atom_count lines d :
  (forall line, line ∈ lines -> contains " Atoms:  " line = false) ->
  scalar_pass lines initial_descriptors = Ok d ->
  d !! "atom_num" = Some DNone.
Proof.
  intros Habs H.
  eapply (for_each_inv (fun s => s !! "atom_num" = Some DNone)); [| |exact H].
  - intros line s s' Hin Hs Hstep. rewrite <- Hs.
    eapply scalar_line_frame; [done|].
    eapply (may_write_without_anchor _ " Atoms:  "); [|by apply Habs].
    vm_compute. set_solver.
  - vm_compute. reflexivity.
Qed.

Lemma surface_keeps_atom_count lines d d' :
  surface_pass lines d = Ok d' -> d' !! "atom_num" = d !! "atom_num".
Proof.
  rewrite surface_pass_by_rank. intros H.
  eapply (by_rank_frame (surface_section lines) section_keys); [|done|].
  - apply surface_section_frame.
  - intros r _ Hin.
    destruct r as [|[|[|[|[|[|r]]]]]]; simpl in Hin;
      repeat (apply elem_of_cons in Hin as [? | Hin]; [discriminate|]);
      by apply elem_of_nil in Hin.
Qed.

Lemma atom_sections_without_count lines d1 d2 :
  (forall line, line ∈ lines -> contains " Atoms:  " line = false) ->
  (exists line, line ∈ lines /\ atom_section_anchor line = true) ->
  scalar_pass lines initial_descriptors = Ok d1 ->
  surface_pass lines d1 = Ok d2 ->
  parse_lines lines = Raise TypeError.
Proof.
  intros Habs (line & Hin & Hanchor) H1 H2.
  assert (d2 !! "atom_num" = Some DNone) as Hd2.
  { rewrite (surface_keeps_atom_count _ _ _ H2). by eapply no_atom_count. }
  unfold parse_lines. rewrite H1. cbn [rbind]. rewrite H2. cbn [rbind].
  unfold atom_pass. rewrite (atom_loop_none lines d2 Hd2) by done.
  assert (existsb charge_anchor lines || existsb (contains anchor_fuzzy) lines = true)
    as Hex.
  { rewrite <- existsb_orb. by eapply existsb_member. }
  destruct (existsb charge_anchor lines); cbn [rbind]; [done|].
  unfold fuzzy_pass. rewrite (fuzzy_loop_none lines d2 Hd2).
  simpl in Hex. by rewrite Hex.
Qed.




(** ** The windows of the per-atom series *)

Lemma map_rows_length row ls rows :
  map_rows row ls = Ok rows -> length rows = length ls.
Proof.
  revert rows. induction ls as [|l rest IH]; intros rows H; simpl in H.
  - by injection H as <-.
  - bind_inv H. bind_inv H. injection H as <-. simpl. f_equal. by apply IH.
Qed.

Lemma series_by_layout_length L ls m :
  series_by_layout L ls = Ok m ->
  length (atoms m) = length ls /\ length (charges m) = length ls.
Proof.
  unfold series_by_layout. intros H. bind_inv H. injection H as <-. simpl.
  rewrite !length_fmap. split; by eapply map_rows_length.
Qed.

Lemma slice_window_length {A : Type} (l : list A) (start : nat) (n : Z) :
  (0 <= n)%Z ->
  (Z.of_nat (length (PyList.slice l (Z.of_nat start) (Z.of_nat start + n))) <= n)%Z
  /\ ((Z.of_nat start + n <= Z.of_nat (length l))%Z ->
      Z.of_nat (length (PyList.slice l (Z.of_nat start) (Z.of_nat start + n))) = n).
Proof.
  intros Hn. unfold PyList.slice, PyList.clamp.
  destruct (Z.ltb_spec (Z.of_nat start) 0); [lia|].
  destruct (Z.ltb_spec (Z.of_nat start + n) 0); [lia|].
  rewrite length_take, length_drop. lia.
Qed.

Lemma series_from_windows_insert lines d key n L start m :
  key <> "atom_num" ->
  key_layout key = Some L ->
  d !! "atom_num" = Some (DInt n) ->
  series_by_layout L (PyList.slice lines (Z.of_nat start) (Z.of_nat start + n)) = Ok m ->
  series_from_windows lines (Some (DInt n)) d ->
  series_from_windows lines (Some (DInt n)) (<[key := DMol m]> d).
Proof.
  intros Hne HL Hn Hm [Hc Hall]. split; [by rewrite lookup_insert_ne|].
  intros k m' Hk. destruct (decide (k = key)) as [->|Hk'].
  - rewrite lookup_insert_eq in Hk. injection Hk as <-. eauto 10.
  - rewrite lookup_insert_ne in Hk by done. eauto.
Qed.

Lemma atom_line_windows lines line count d d' :
  atom_line lines line d = Ok d' ->
  series_from_windows lines count d -> series_from_windows lines count d'.
Proof.
  unfold atom_line, charge_section.
  repeat lazymatch goal with
         | |- (if ?c then _ else _) = _ -> _ =>
             destruct c eqn:?;
             [ intros Hrun Hinv; bind_inv Hrun; cbv zeta in Hrun;
               apply window_section_inv in Hrun as (n & m & Hn & Hm & ->);
               pose proof Hinv as [Hc _]; rewrite Hn in Hc; subst count;
               first [ rewrite _read_charge_Hirshfeld in Hm
                     | rewrite _read_charge_ADCH in Hm
                     | rewrite _read_charge_RESP in Hm
                     | rewrite _read_charge_spin in Hm ];
               by eapply series_from_windows_insert
             | ]
         end.
  by intros [= <-].
Qed.

Lemma fuzzy_body_windows lines idx line count s s' :
  fuzzy_body lines idx line s = Ok s' ->
  series_from_windows lines count s.2 -> series_from_windows lines count s'.2.
Proof.
  destruct s as [index d]. unfold fuzzy_body.
  destruct (contains anchor_fuzzy line); [|by intros [= <-]].
  intros H Hinv. bind_inv H. injection H as <-. simpl in *.
  unfold fuzzy_rank in Hbind.
  destruct (index + 1) as [|[|[|[|r]]]]; try (by injection Hbind as <-);
    apply fuzzy_section_inv in Hbind as (n & m & Hn & Hm & ->);
    pose proof Hinv as [Hc _]; rewrite Hn in Hc; subst count;
    rewrite _read_fuzzy_known in Hm by (unfold fuzzy_names; set_solver);
    by eapply series_from_windows_insert.
Qed.

Lemma none_dict_lookup keys key v : none_dict keys !! key = Some v -> v = DNone.
Proof.
  unfold none_dict. intros H. apply elem_of_list_to_map_2 in H.
  apply list_elem_of_fmap in H as (k & [= _ ->] & _). done.
Qed.

Lemma initial_no_series : no_series initial_descriptors.
Proof. intros key m H. by apply none_dict_lookup in H. Qed.

Lemma no_series_insert k v d :
  (forall m, v <> DMol m) -> no_series d -> no_series (<[k := v]> d).
Proof.
  intros Hv Hd key m. destruct (decide (key = k)) as [->|].
  - rewrite lookup_insert_eq. intros [= ->]. by eapply Hv.
  - rewrite lookup_insert_ne by done. apply Hd.
Qed.

Lemma scalar_line_no_series line d d' :
  scalar_line line d = Ok d' -> no_series d -> no_series d'.
Proof.
  unfold scalar_line.
  repeat lazymatch goal with
         | |- (if ?c then _ else _) = _ -> _ =>
             destruct c;
             [ intros Hrun Hinv; repeat bind_inv Hrun; injection Hrun as <-;
               by apply no_series_insert
             | ]
         end.
  by intros [= <-].
Qed.

Lemma surface_section_no_series lines idx rank d d' :
  surface_section lines idx rank d = Ok d' -> no_series d -> no_series d'.
Proof.
  destruct rank as [|[|[|[|[|[|rank]]]]]]; unfold surface_section;
    split_chain; intros H Hinv; try discriminate;
    injection H as <-; try done;
    repeat (apply no_series_insert; [done|]); done.
Qed.

Lemma surface_body_no_series lines idx line s s' :
  surface_body lines idx line s = Ok s' -> no_series s.2 -> no_series s'.2.
Proof.
  destruct s as [index d]. unfold surface_body.
  destruct (contains summary_heading line); [|by intros [= <-]].
  intros H Hinv. bind_inv H. injection H as <-. simpl in *.
  by eapply surface_section_no_series.
Qed.

Lemma parse_lines_windows lines d :
  parse_lines lines = Ok d -> series_from_windows lines (d !! "atom_num") d.
Proof.
  unfold parse_lines, scalar_pass, surface_pass, atom_pass, fuzzy_pass.
  intros H.
  bind_inv H. rename a into d1. bind_inv H. bind_inv Hbind0.
  injection Hbind0 as <-. destruct a0 as [i2 d2]. simpl in H.
  bind_inv H. rename a into d3. bind_inv H. injection H as <-.
  destruct a as [i4 d4]. simpl.
  assert (no_series d1) as H1.
  { eapply (for_each_inv no_series); [|apply initial_no_series|done].
    intros line s s' _ Hs Hstep. by eapply scalar_line_no_series. }
  assert (no_series d2) as H2.
  { eapply (for_enumerate_inv (fun s => no_series s.2)
              (surface_body lines) lines _ 0 (0, d1) (i2, d2)); [done|done].
    Unshelve.
    intros idx line s s' _ Hs Hstep. by eapply surface_body_no_series. }
  assert (series_from_windows lines (d2 !! "atom_num") d2) as Hstart.
  { split; [done|]. intros key m Hk. by destruct (H2 key m). }
  assert (series_from_windows lines (d2 !! "atom_num") d3) as H3.
  { eapply (for_each_inv (series_from_windows lines (d2 !! "atom_num")));
      [|done|done].
    intros line s s' _ Hs Hstep. by eapply atom_line_windows. }
  assert (series_from_windows lines (d2 !! "atom_num") d4) as H4.
  { eapply (for_enumerate_inv
              (fun s => series_from_windows lines (d2 !! "atom_num") s.2)
              (fuzzy_body lines) lines _ 0 (0, d3) (i4, d4)); [done|done].
    Unshelve.
    intros idx line s s' _ Hs Hstep. by eapply fuzzy_body_windows. }
  destruct H4 as [Hc Hall]. by rewrite Hc.
Qed.

(** C5 (as the code has it): every per-atom series of a parsed record is
    read with the layout declared for its key, row by row and in the order
    of the report, from one window of the report that was sliced with the
    parsed atom count; its atoms and its charges have the same length, the
    length of that window; with an atom count that is not negative this
    length is at most the atom count, and it is the atom count whenever the
    window ends inside the report. *)
Theorem series_follow_windows (contents : string) (d : descriptors) (n : Z)
    (key : string) (m : Molecule) :
  _get_other_descriptors contents = Ok d ->
  d !! "atom_num" = Some (DInt n) ->
  d !! key = Some (DMol m) ->
  exists L start,
    key_layout key = Some L
    /\ series_by_layout L
         (PyList.slice (splitlines contents) (Z.of_nat start) (Z.of_nat start + n))
       = Ok m
    /\ length (atoms m) = length (charges m)
    /\ ((0 <= n)%Z ->
        (Z.of_nat (length (atoms m)) <= n)%Z
        /\ ((Z.of_nat start + n <= Z.of_nat (length (splitlines contents)))%Z ->
            Z.of_nat (length (atoms m)) = n)).
Proof.
  intros Hd Hn Hk. apply parse_lines_windows in Hd as [_ Hall].
  destruct (Hall _ _ Hk) as (n' & L & start & Hn' & HL & Hm).
  rewrite Hn in Hn'. injection Hn' as <-.
  exists L, start. split; [done|]. split; [done|].
  destruct (series_by_layout_length _ _ _ Hm) as [Ha Hc].
  split; [congruence|]. intros Hpos. rewrite Ha.
  by apply slice_window_length.
Qed.

Lemma series_follow_windows_witness :
  exists L start,
    key_layout "Laplacian_electron_density" = Some L
    /\ series_by_layout L
         (PyList.slice (splitlines (join_lines sample_short_window))
            (Z.of_nat start) (Z.of_nat start + 2))
       = Ok (mkMolecule None ["1(C)"] [FNum (-5 # 4)])
    /\ length ["1(C)"] = length [FNum (-5 # 4)]
    /\ ((0 <= 2)%Z ->
        (Z.of_nat (length ["1(C)"]) <= 2)%Z
        /\ ((Z.of_nat start + 2
             <= Z.of_nat (length (splitlines (join_lines sample_short_window))))%Z ->
            Z.of_nat (length ["1(C)"]) = 2%Z)).
Proof.
  apply (series_follow_windows (join_lines sample_short_window)
           (unwrap (_get_other_descriptors (join_lines sample_short_window)))
           2 "Laplacian_electron_density"
           (mkMolecule None ["1(C)"] [FNum (-5 # 4)])).
  - apply unwrap_ok. vm_compute. reflexivity.
  - vm_compute. reflexivity.
  - vm_compute. reflexivity.
Defined.

(** C5 as the specification states it does not hold of the code: the
    record of this report has an atom count of 2, a series of two atoms and
    a series of one atom. *)
Lemma series_lengths_counterexample :
  is_ok (_get_other_descriptors (join_lines sample_short_window)) = true
  /\ field "atom_num" (_get_other_descriptors (join_lines sample_short_window))
     = Ok (Some (DInt 2))
  /\ field "electron_density" (_get_other_descriptors (join_lines sample_short_window))
     = Ok (Some (DMol (mkMolecule None ["1(C)"; "2(H)"] [FNum (11 # 2); FNum (1 # 2)])))
  /\ field "Laplacian_electron_density"
       (_get_other_descriptors (join_lines sample_short_window))
     = Ok (Some (DMol (mkMolecule None ["1(C)"] [FNum (-5 # 4)]))).
Proof. vm_compute. repeat split. Qed.

(** ** The CDFT lookups *)

Lemma find_step_value contents name sd :
  sd !! name = Some DNone ->
  find_step contents name sd
  = do v <- cdft_value contents name; Ok (<[name := v]> sd).
Proof.
  intros H. unfold find_step, cdft_value.
  destruct (_find_descriptor contents name) as [g|]; cbn [rbind].
  - by destruct (py_float_r g).
  - by rewrite insert_id.
Qed.

Lemma _get_cdft_descriptors_values contents :
  _get_cdft_descriptors contents
  = do v1 <- cdft_value contents "Mulliken electronegativity";
    do v2 <- cdft_value contents "Chemical potential";
    do v3 <- cdft_value contents "Hardness (=fundamental gap)";
    do v4 <- cdft_value contents "Electrophilicity index";
    do v5 <- cdft_value contents "Nucleophilicity index";
    Ok (<["nucleophilicity_index" := v5]>
          (<["electrophilicity_index" := v4]>
             (<["chemical_hardness" := v3]>
                (<["chemical_potential" := v2]>
                   (<["electronegativity" := v1]> (none_dict cdft_keys)))))).
Proof.
  unfold _get_cdft_descriptors.
  generalize (none_dict cdft_keys). intros cd.
  assert (forall k, k ∈ search_names -> none_dict search_names !! k = Some DNone)
    as Hnone.
  { intros k Hk. unfold search_names in Hk.
    repeat (apply elem_of_cons in Hk as [-> | Hk]; [vm_compute; reflexivity|]).
    by apply elem_of_nil in Hk. }
  revert Hnone. generalize (none_dict search_names). intros sd Hnone.
  unfold search_names at 1. cbn [for_each].
  rewrite find_step_value by (apply Hnone; unfold search_names; set_solver).
  destruct (cdft_value contents "Mulliken electronegativity") as [v1|]; cbn [rbind]; [|done].
  rewrite find_step_value
    by (rewrite lookup_insert_ne by done; apply Hnone; unfold search_names; set_solver).
  destruct (cdft_value contents "Chemical potential") as [v2|]; cbn [rbind]; [|done].
  rewrite find_step_value
    by (rewrite !lookup_insert_ne by done; apply Hnone; unfold search_names; set_solver).
  destruct (cdft_value contents "Hardness (=fundamental gap)") as [v3|]; cbn [rbind]; [|done].
  rewrite find_step_value
    by (rewrite !lookup_insert_ne by done; apply Hnone; unfold search_names; set_solver).
  destruct (cdft_value contents "Electrophilicity index") as [v4|]; cbn [rbind]; [|done].
  rewrite find_step_value
    by (rewrite !lookup_insert_ne by done; apply Hnone; unfold search_names; set_solver).
  destruct (cdft_value contents "Nucleophilicity index") as [v5|]; cbn [rbind]; [|done].
  unfold getitem.
  repeat (rewrite ?lookup_insert_eq, ?lookup_insert_ne by done; cbn [or_raise rbind]).
  done.
Qed.

Lemma cdft_field_value contents name key d :
  (name, key) ∈ cdft_fields ->
  _get_cdft_descriptors contents = Ok d ->
  Ok (d !! key) = (do v <- cdft_value contents name; Ok (Some v)).
Proof.
  intros Hin. rewrite _get_cdft_descriptors_values. intros H.
  repeat bind_inv H. injection H as <-.
  unfold cdft_fields in Hin.
  repeat (apply elem_of_cons in Hin as [[= -> ->] | Hin]);
    [| | | | | by apply elem_of_nil in Hin];
    repeat match goal with
           | E : cdft_value _ _ = Ok _ |- _ => rewrite E; clear E
           end;
    cbn [rbind];
    by rewrite ?lookup_insert_eq, ?lookup_insert_ne by done.
Qed.

Lemma cdft_total contents :
  (forall name g, name ∈ search_names ->
     _find_descriptor contents name = Some g -> is_Some (py_float g)) ->
  is_ok (_get_cdft_descriptors contents) = true.
Proof.
  intros H. rewrite _get_cdft_descriptors_values.
  assert (forall name, name ∈ search_names -> exists v, cdft_value contents name = Ok v)
    as Hv.
  { intros name Hin. unfold cdft_value.
    destruct (_find_descriptor contents name) as [g|] eqn:E; [|eauto].
    destruct (H _ _ Hin E) as [x Hx]. unfold py_float_r. rewrite Hx. simpl. eauto. }
  repeat match goal with
         | |- context [cdft_value contents ?name] =>
             let v := fresh "v" in
             let E := fresh "E" in
             destruct (Hv name) as [v E];
             [unfold search_names; listed | rewrite E; cbn [rbind]]
         end.
  done.
Qed.

(** ** Greedy runs *)

Lemma star_run {A : Type} (cls : ascii -> bool)
    (k : option ascii -> string -> option A) (run rest : string) (a : A) :
  forall prev,
    all_chars cls run = true -> stops cls rest = true ->
    k (last_char prev run) rest = Some a ->
    star cls k prev (run +:+ rest) = Some (run, a).
Proof.
  induction run as [|x run IH]; intros prev Hall Hstop Hk; simpl in *.
  - destruct rest as [|c rest]; simpl; unfold no_more.
    + by rewrite Hk.
    + apply negb_true_iff in Hstop. by rewrite Hstop, Hk.
  - apply andb_prop in Hall as [-> Hall].
    by rewrite (IH (Some x) Hall Hstop Hk).
Qed.

Lemma plus_run {A : Type} (cls : ascii -> bool)
    (k : option ascii -> string -> option A) (run rest : string) (a : A) prev :
  run <> EmptyString ->
  all_chars cls run = true -> stops cls rest = true ->
  k (last_char prev run) rest = Some a ->
  plus cls k (run +:+ rest) = Some (run, a).
Proof.
  destruct run as [|x run]; [done|]. intros _ Hall Hstop Hk. simpl in *.
  apply andb_prop in Hall as [-> Hall].
  by rewrite (star_run cls k run rest a (Some x) Hall Hstop Hk).
Qed.

Lemma star_total {A : Type} (cls : ascii -> bool)
    (k : option ascii -> string -> option A) (a : A) :
  (forall p s, k p s = Some a) ->
  forall s prev, exists m, star cls k prev s = Some (m, a).
Proof.
  intros Hk. induction s as [|c s IH]; intros prev; simpl; unfold no_more.
  - rewrite Hk. eauto.
  - destruct (cls c); [|rewrite Hk; eauto].
    destruct (IH (Some c)) as [m ->]. eauto.
Qed.

Lemma plus_total {A : Type} (cls : ascii -> bool)
    (k : option ascii -> string -> option A) (a : A) u rest :
  (forall p s, k p s = Some a) -> cls u = true ->
  exists m, plus cls k (String u rest) = Some (m, a).
Proof.
  intros Hk Hu. simpl. rewrite Hu.
  destruct (star_total cls k a Hk rest (Some u)) as [m ->]. eauto.
Qed.

Lemma starts_with_append p s : starts_with p (p +:+ s) = true.
Proof. apply starts_with_spec. eauto. Qed.

Lemma drop_str_append p s : drop_str (String.length p) (p +:+ s) = s.
Proof. induction p as [|c p IH]; simpl; [by destruct s | done]. Qed.

Lemma stops_head (cls1 cls2 : ascii -> bool) (run rest : string) :
  (forall c, cls1 c = true -> cls2 c = false) ->
  run <> EmptyString -> all_chars cls1 run = true ->
  stops cls2 (run +:+ rest) = true.
Proof.
  intros Hd. destruct run as [|c run]; [done|]. simpl. intros _ Hall.
  apply andb_prop in Hall as [Hc _]. by rewrite (Hd c Hc).
Qed.

Lemma num_char_not_space c : num_char c = true -> isspace c = false.
Proof. destruct c as [[] [] [] [] [] [] [] []]; vm_compute; congruence. Qed.

Lemma space_not_num_char c : isspace c = true -> num_char c = false.
Proof. destruct c as [[] [] [] [] [] [] [] []]; vm_compute; congruence. Qed.

Lemma word_not_space c : isword c = true -> isspace c = false.
Proof. destruct c as [[] [] [] [] [] [] [] []]; vm_compute; congruence. Qed.

Lemma match_here_word r prev s :
  match_here (WordB :: r) prev s
  = if xorb (word_at prev) (word_at (head_char s)) then match_here r prev s else None.
Proof. reflexivity. Qed.

Lemma match_here_lit l r prev s :
  match_here (Lit l :: r) prev s
  = if starts_with l s
    then match_here r (after_lit l prev) (drop_str (String.length l) s)
    else None.
Proof. reflexivity. Qed.

Lemma match_here_plus cls r prev s :
  match_here (Plus cls :: r) prev s
  = match plus cls (match_here r) s with
    | Some (_, g) => Some g
    | None => None
    end.
Proof. reflexivity. Qed.

Lemma match_here_group cls r prev s :
  match_here (GroupPlus cls :: r) prev s
  = match plus cls (match_here r) s with
    | Some (m, _) => Some (Some m)
    | None => None
    end.
Proof. reflexivity. Qed.

Lemma search_go_here r prev s g :
  match_here r prev s = Some g -> search_go r prev s = Some g.
Proof. intros H. destruct s; simpl; by rewrite H. Qed.

(** The pattern of a name matches at the head of a text that spells the
    name, a colon, whitespace, a number text, whitespace and a word
    character, however long the two runs of whitespace are; group 1 is the
    number text. *)
Lemma cdft_pattern_spacing name ws1 num ws2 u rest :
  word_at (head_char name) = true ->
  ws1 <> EmptyString -> all_chars isspace ws1 = true ->
  num <> EmptyString -> all_chars num_char num = true ->
  ws2 <> EmptyString -> all_chars isspace ws2 = true ->
  isword u = true ->
  _find_descriptor
    (name +:+ ":" +:+ ws1 +:+ num +:+ ws2 +:+ String u rest) name = Some num.
Proof.
  intros Hname Hw1 Hs1 Hn Hnum Hw2 Hs2 Hu.
  unfold _find_descriptor, search, cdft_pattern.
  assert (match_here
            [WordB; Lit name; Lit ":"; Plus isspace; GroupPlus num_char;
             Plus isspace; Plus isword] None
            (name +:+ ":" +:+ ws1 +:+ num +:+ ws2 +:+ String u rest)
          = Some (Some num)) as Hm.
  { rewrite match_here_word.
    assert (head_char (name +:+ ":" +:+ ws1 +:+ num +:+ ws2 +:+ String u rest)
            = head_char name) as ->.
    { destruct name; [discriminate Hname | done]. }
    rewrite Hname. cbn [word_at xorb].
    rewrite match_here_lit, starts_with_append, drop_str_append.
    change (":" +:+ ws1 +:+ num +:+ ws2 +:+ String u rest)
      with (String ":" (ws1 +:+ num +:+ ws2 +:+ String u rest)).
    rewrite match_here_lit.
    cbn [starts_with Ascii.eqb Bool.eqb andb String.length drop_str].
    destruct (plus_total isword (match_here []) (@None string) u rest
                (fun _ _ => eq_refl) Hu) as [m3 H3].
    set (prev := after_lit ":" (after_lit name None)).
    assert (plus isspace (match_here [Plus isword]) (ws2 +:+ String u rest)
            = Some (ws2, @None string)) as H2.
    { apply (plus_run _ _ _ _ _ None); try done.
      - simpl. by rewrite (word_not_space _ Hu).
      - rewrite match_here_plus. by rewrite H3. }
    assert (plus num_char (match_here [Plus isspace; Plus isword])
              (num +:+ ws2 +:+ String u rest) = Some (num, @None string)) as H1.
    { apply (plus_run _ _ _ _ _ None); try done.
      - apply (stops_head isspace); [apply space_not_num_char|done|done].
      - rewrite match_here_plus. by rewrite H2. }
    rewrite match_here_plus.
    rewrite (plus_run isspace _ ws1 (num +:+ ws2 +:+ String u rest) (Some num) prev);
      try done.
    - apply (stops_head num_char); [apply num_char_not_space|done|done].
    - rewrite match_here_group. by rewrite H1. }
  by rewrite (search_go_here _ _ _ _ Hm).
Qed.





(** * Further properties of the parser *)

(** ** The shape of a returned record *)

Lemma in_keys_spec keys key : in_keys keys key = true <-> key ∈ keys.
Proof.
  unfold in_keys. rewrite existsb_exists. split.
  - intros (x & Hin & Heq). apply String.eqb_eq in Heq as ->.
    by apply list_elem_of_In.
  - intros Hin. exists key. split; [by apply list_elem_of_In|].
    apply String.eqb_refl.
Qed.

Lemma initial_schema : has_schema other_keys initial_descriptors.
Proof.
  intros key. unfold initial_descriptors, none_dict.
  destruct (list_to_map ((fun k => (k, DNone)) <$> other_keys) !! key) as [v|] eqn:E.
  - apply elem_of_list_to_map_2 in E.
    apply list_elem_of_fmap in E as (k & [= -> ->] & Hk).
    unfold value_fits. split; by apply in_keys_spec.
  - apply not_elem_of_list_to_map in E. apply not_true_is_false.
    intros Hin%in_keys_spec. apply E.
    rewrite <- list_fmap_compose. apply list_elem_of_fmap. by exists key.
Qed.

Lemma schema_insert keys k v d :
  in_keys keys k = true -> value_fits k v = true ->
  has_schema keys d -> has_schema keys (<[k := v]> d).
Proof.
  intros Hk Hv Hd key. destruct (decide (key = k)) as [->|Hne].
  - by rewrite lookup_insert_eq.
  - rewrite lookup_insert_ne by done. apply Hd.
Qed.

Lemma read_rows_lengths row ls :
  forall acc acc',
    read_rows row ls acc = Ok acc' ->
    length acc.1 = length acc.2 -> length acc'.1 = length acc'.2.
Proof.
  induction ls as [|l rest IH]; intros acc acc' H Hlen; simpl in H.
  - by injection H as <-.
  - bind_inv H. eapply IH; [done|]. simpl. rewrite !length_app. simpl. lia.
Qed.

Lemma when_type_lengths ty expected row ls acc acc' :
  when_type ty expected row ls acc = Ok acc' ->
  length acc.1 = length acc.2 -> length acc'.1 = length acc'.2.
Proof.
  unfold when_type. destruct (String.eqb ty expected).
  - apply read_rows_lengths.
  - by intros [= <-].
Qed.

Lemma _read_charge_shape ls ty m :
  _read_charge ls ty = Ok m ->
  name m = None /\ length (atoms m) = length (charges m).
Proof.
  unfold _read_charge. intros H. do 3 bind_inv H.
  destruct (when_type ty "spin" row_spin ls a1) as [s|] eqn:E; [|discriminate].
  cbn [rbind] in H. injection H as <-. simpl. rename E into H.
  split; [done|].
  apply when_type_lengths in Hbind; [|done].
  apply when_type_lengths in Hbind0; [|done].
  apply when_type_lengths in Hbind1; [|done].
  by apply when_type_lengths in H.
Qed.

Lemma _read_fuzzy_shape ls key m :
  _read_fuzzy ls key = Ok m ->
  name m = None /\ length (atoms m) = length (charges m).
Proof.
  unfold _read_fuzzy. intros H. do 2 bind_inv H.
  destruct (when_type key "kinetic_energy_density" row_fuzzy ls a0) as [s|] eqn:E;
    [|discriminate].
  cbn [rbind] in H. injection H as <-. simpl. rename E into H.
  split; [done|].
  apply when_type_lengths in Hbind; [|done].
  apply when_type_lengths in Hbind0; [|done].
  by apply when_type_lengths in H.
Qed.

Lemma series_fits key m :
  in_keys series_keys key = true ->
  name m = None -> length (atoms m) = length (charges m) ->
  value_fits key (DMol m) = true.
Proof.
  intros Hk Hn Hl. unfold value_fits. rewrite Hk, Hn, Hl.
  by rewrite Nat.eqb_refl.
Qed.

Lemma scalar_line_schema line d d' :
  scalar_line line d = Ok d' ->
  has_schema other_keys d -> has_schema other_keys d'.
Proof.
  unfold scalar_line.
  repeat lazymatch goal with
         | |- (if ?c then _ else _) = _ -> _ =>
             destruct c;
             [ intros Hrun Hinv; repeat bind_inv Hrun; injection Hrun as <-;
               by apply schema_insert
             | ]
         end.
  by intros [= <-].
Qed.

Lemma surface_section_schema lines idx rank d d' :
  surface_section lines idx rank d = Ok d' ->
  has_schema other_keys d -> has_schema other_keys d'.
Proof.
  destruct rank as [|[|[|[|[|[|rank]]]]]]; unfold surface_section;
    split_chain; intros H Hinv; try discriminate;
    injection H as <-; try done;
    repeat (apply schema_insert; [done|done|]); done.
Qed.

Lemma surface_body_schema lines idx line s s' :
  surface_body lines idx line s = Ok s' ->
  has_schema other_keys s.2 -> has_schema other_keys s'.2.
Proof.
  destruct s as [index d]. unfold surface_body.
  destruct (contains summary_heading line); [|by intros [= <-]].
  intros H Hinv. bind_inv H. injection H as <-. simpl in *.
  by eapply surface_section_schema.
Qed.

Lemma atom_line_schema lines line d d' :
  atom_line lines line d = Ok d' ->
  has_schema other_keys d -> has_schema other_keys d'.
Proof.
  unfold atom_line, charge_section.
  repeat lazymatch goal with
         | |- (if ?c then _ else _) = _ -> _ =>
             destruct c;
             [ intros Hrun Hinv; bind_inv Hrun; cbv zeta in Hrun;
               apply window_section_inv in Hrun as (n & m & _ & Hm & ->);
               apply _read_charge_shape in Hm as [Hname Hlen];
               apply schema_insert; [done|by apply series_fits|done]
             | ]
         end.
  by intros [= <-].
Qed.

Lemma fuzzy_body_schema lines idx line s s' :
  fuzzy_body lines idx line s = Ok s' ->
  has_schema other_keys s.2 -> has_schema other_keys s'.2.
Proof.
  destruct s as [index d]. unfold fuzzy_body.
  destruct (contains anchor_fuzzy line); [|by intros [= <-]].
  intros H Hinv. bind_inv H. injection H as <-. simpl in *.
  unfold fuzzy_rank in Hbind.
  destruct (index + 1) as [|[|[|[|r]]]]; try (by injection Hbind as <-);
    apply fuzzy_section_inv in Hbind as (n & m & _ & Hm & ->);
    apply _read_fuzzy_shape in Hm as [Hname Hlen];
    (apply schema_insert; [done|by apply series_fits|done]).
Qed.

Lemma parse_lines_schema lines d :
  parse_lines lines = Ok d -> has_schema other_keys d.
Proof.
  unfold parse_lines, scalar_pass, surface_pass, atom_pass, fuzzy_pass.
  intros H.
  bind_inv H. rename a into d1. bind_inv H. bind_inv Hbind0.
  injection Hbind0 as <-. destruct a0 as [i2 d2]. simpl in H.
  bind_inv H. rename a into d3. bind_inv H. injection H as <-.
  destruct a as [i4 d4]. simpl.
  assert (has_schema other_keys d1) as H1.
  { eapply (for_each_inv (has_schema other_keys));
      [|apply initial_schema|done].
    intros line s s' _ Hs Hstep. by eapply scalar_line_schema. }
  assert (has_schema other_keys d2) as H2.
  { eapply (for_enumerate_inv (fun s => has_schema other_keys s.2)
              (surface_body lines) lines _ 0 (0, d1) (i2, d2)); [done|done].
    Unshelve.
    intros idx line s s' _ Hs Hstep. by eapply surface_body_schema. }
  assert (has_schema other_keys d3) as H3.
  { eapply (for_each_inv (has_schema other_keys)); [|done|done].
    intros line s s' _ Hs Hstep. by eapply atom_line_schema. }
  eapply (for_enumerate_inv (fun s => has_schema other_keys s.2)
            (fuzzy_body lines) lines _ 0 (0, d3) (i4, d4)); [done|done].
  Unshelve.
  intros idx line s s' _ Hs Hstep. by eapply fuzzy_body_schema.
Qed.

Lemma schema_keys keys d key :
  has_schema keys d -> is_Some (d !! key) <-> key ∈ keys.
Proof.
  intros H. specialize (H key). rewrite <- in_keys_spec.
  destruct (d !! key) as [v|].
  - destruct H as [H _]. split; [done | eauto].
  - rewrite H. split; [by intros [? ?] | done].
Qed.

Lemma schema_value keys d key v :
  has_schema keys d -> d !! key = Some v -> value_fits key v = true.
Proof. intros H E. specialize (H key). rewrite E in H. by destruct H. Qed.

(** X1: a record returned by [_get_other_descriptors] has exactly the 32
    keys of the initial dictionary, and under each key a value of its kind:
    [None] or an [int] under the atom count, [None] or a [float] under a
    scalar key, [None] or a [Molecule] without a name and with as many
    charges as atoms under a series key. *)
Theorem record_has_schema (contents : string) (d : descriptors) :
  _get_other_descriptors contents = Ok d ->
  (forall key, is_Some (d !! key) <-> key ∈ other_keys)
  /\ (forall key v, d !! key = Some v -> value_fits key v = true).
Proof.
  intros H. apply parse_lines_schema in H. split.
  - intros key. by apply schema_keys.
  - intros key v. by apply (schema_value other_keys).
Qed.

Lemma record_has_schema_witness :
  (forall key,
      is_Some (unwrap (_get_other_descriptors (join_lines sample_short_window)) !! key)
      <-> key ∈ other_keys)
  /\ (forall key v,
        unwrap (_get_other_descriptors (join_lines sample_short_window)) !! key = Some v ->
        value_fits key v = true).
Proof.
  apply (record_has_schema (join_lines sample_short_window)).
  apply unwrap_ok. vm_compute. reflexivity.
Defined.

(** ** The lines read after a surface summary heading *)

Lemma marked_float_ok first second line x :
  marked_float first second line = Ok x -> contains first line = true.
Proof.
  unfold marked_float, between_markers. intros H. bind_inv H. bind_inv Hbind.
  destruct (contains first line) eqn:E; [done|].
  rewrite (split_without_separator _ _ E) in Hbind0. discriminate.
Qed.

Lemma surface_section_reads lines idx rank d d' off marker :
  surface_section lines idx rank d = Ok d' ->
  (off, marker) ∈ section_markers rank ->
  exists l, lines !! (idx + off) = Some l /\ contains marker l = true.
Proof.
  intros H Hin.
  destruct rank as [|[|[|[|[|[|rank]]]]]]; simpl in Hin;
    try (by apply elem_of_nil in Hin);
    unfold surface_section in H; cbv zeta in H; repeat bind_inv H;
    rewrite <- ?Nat.add_assoc in *; cbn [Nat.add] in *;
    repeat (apply elem_of_cons in Hin as [[= -> ->] | Hin]);
    try (by apply elem_of_nil in Hin);
    (eexists; split; [by apply item_ok | by eapply marked_float_ok]).
Qed.

(** X2: when the pass over the surface summaries returns, every heading of
    rank 1 to 5 is followed inside the report by the lines that its branch
    reads (offsets 2 and 4 for rank 1; 4 and 17 for rank 2; 4 and 8 for
    ranks 3 and 4; 4 for rank 5), and each of these lines contains the
    marker that it is split at first. *)
Theorem surface_windows_inside (lines : list string) (d d' : descriptors)
    (idx : nat) (line : string) (off : nat) (marker : string) :
  surface_pass lines d = Ok d' ->
  lines !! idx = Some line ->
  contains summary_heading line = true ->
  (off, marker) ∈ section_markers (occurrence_rank summary_heading lines idx) ->
  exists l, lines !! (idx + off) = Some l /\ contains marker l = true.
Proof.
  intros Hpass Hline Hc Hin.
  destruct (occurrences_rank _ _ _ _ Hline Hc) as (r & Hr & Hocc).
  rewrite Hr in *. rewrite surface_pass_by_rank in Hpass.
  destruct (by_rank_lookup (surface_section lines) section_keys
              (surface_section_frame lines) section_keys_disjoint
              _ _ _ _ _ _ Hpass Hocc) as (d0 & d1 & H1 & _).
  change (0 + S r) with (S r) in H1.
  by eapply surface_section_reads.
Qed.

Lemma surface_windows_inside_witness :
  exists l, sample_surface !! (5 + 17) = Some l /\ contains ":" l = true.
Proof.
  apply (surface_windows_inside sample_surface initial_descriptors
           sample_surface_result 5 summary_heading 17 ":").
  - apply unwrap_ok. vm_compute. reflexivity.
  - reflexivity.
  - reflexivity.
  - vm_compute. unfold elem_of. listed.
Defined.

(** ** Several lines with the anchor of one scalar *)

(** A line of the first pass does the same to every dictionary: nothing,
    a raise, or the assignment of one value to one scalar key. *)
Lemma scalar_line_uniform line :
  (forall d, scalar_line line d = Ok d)
  \/ (exists e, forall d, scalar_line line d = Raise e)
  \/ (exists k v, in_keys scalar_keys k = true
        /\ forall d, scalar_line line d = Ok (<[k := v]> d)).
Proof.
  unfold scalar_line.
  repeat lazymatch goal with
         | |- context [if ?c then _ else _] =>
             destruct c;
             [ repeat match goal with
                      | |- context [rbind ?m _] =>
                          destruct m; cbn [rbind];
                          [ | right; left; eexists; intros; reflexivity ]
                      end;
               right; right; eexists _, _; split; [|intros; reflexivity];
               reflexivity
             | ]
         end.
  by left.
Qed.

Lemma not_series_key_insert (k k0 : string) (v : descval) (d : descriptors) :
  in_keys series_keys k = false -> in_keys series_keys k0 = true ->
  <[k0 := v]> d !! k = d !! k.
Proof.
  intros Hk Hk0. rewrite lookup_insert_ne; [done|]. intros ->. congruence.
Qed.

Lemma atom_line_keeps lines line d d' k :
  atom_line lines line d = Ok d' -> in_keys series_keys k = false ->
  d' !! k = d !! k.
Proof.
  unfold atom_line, charge_section.
  repeat lazymatch goal with
         | |- (if ?c then _ else _) = _ -> _ =>
             destruct c;
             [ intros Hrun Hk; bind_inv Hrun; cbv zeta in Hrun;
               apply window_section_inv in Hrun as (n & m & _ & _ & ->);
               by apply not_series_key_insert
             | ]
         end.
  by intros [= <-].
Qed.

Lemma fuzzy_body_keeps lines idx line s s' k :
  fuzzy_body lines idx line s = Ok s' -> in_keys series_keys k = false ->
  s'.2 !! k = s.2 !! k.
Proof.
  destruct s as [index d]. unfold fuzzy_body.
  destruct (contains anchor_fuzzy line); [|by intros [= <-]].
  intros H Hk. bind_inv H. injection H as <-. simpl.
  unfold fuzzy_rank in Hbind.
  destruct (index + 1) as [|[|[|[|r]]]]; try (by injection Hbind as <-);
    apply fuzzy_section_inv in Hbind as (n & m & _ & _ & ->);
    by apply not_series_key_insert.
Qed.

Lemma scalar_key_not_section k r :
  in_keys scalar_keys k = true -> k ∉ section_keys r.
Proof.
  intros Hk%in_keys_spec Hin. unfold scalar_keys in Hk.
  repeat (apply elem_of_cons in Hk as [-> | Hk];
          [ destruct r as [|[|[|[|[|[|r]]]]]]; simpl in Hin;
            repeat (apply elem_of_cons in Hin as [? | Hin]; [discriminate|]);
            by apply elem_of_nil in Hin | ]).
  by apply elem_of_nil in Hk.
Qed.

Lemma scalar_key_not_series k :
  in_keys scalar_keys k = true -> in_keys series_keys k = false.
Proof.
  intros Hk%in_keys_spec. unfold scalar_keys in Hk.
  repeat (apply elem_of_cons in Hk as [-> | Hk]; [reflexivity|]).
  by apply elem_of_nil in Hk.
Qed.

(** The passes after the first one leave the scalar keys as they are. *)
Lemma later_passes_keep_scalars lines d1 d k :
  in_keys scalar_keys k = true ->
  (do d2 <- surface_pass lines d1; do d3 <- atom_pass lines d2; fuzzy_pass lines d3)
  = Ok d ->
  d !! k = d1 !! k.
Proof.
  intros Hk H. bind_inv H. rename a into d2. bind_inv H. rename a into d3.
  pose proof (scalar_key_not_series _ Hk) as Hs.
  transitivity (d3 !! k); [|transitivity (d2 !! k)].
  - unfold fuzzy_pass in H. bind_inv H. injection H as <-. destruct a as [i4 d4].
    eapply (for_enumerate_inv (fun s => s.2 !! k = d3 !! k)
              (fuzzy_body lines) lines _ 0 (0, d3) (i4, d4)); [done|done].
    Unshelve.
    intros idx line s s' _ Hinv Hstep. rewrite <- Hinv.
    by eapply fuzzy_body_keeps.
  - unfold atom_pass in Hbind0.
    eapply (for_each_inv (fun s => s !! k = d2 !! k)); [|done|done].
    intros line s s' _ Hinv Hstep. rewrite <- Hinv. by eapply atom_line_keeps.
  - rewrite surface_pass_by_rank in Hbind.
    eapply (by_rank_frame (surface_section lines) section_keys); [|done|].
    + apply surface_section_frame.
    + intros r _. by apply scalar_key_not_section.
Qed.

(** X3: when several lines carry the anchor of a scalar, the last one
    counts.  If a line, read alone, assigns a value to a key, and no line
    after it contains the anchors of that key, then every record returned
    for the whole report holds that value under the key, whatever the lines
    before it assign. *)
Theorem last_scalar_line_wins (pre post : list string) (line k : string)
    (v : descval) (d1 d : descriptors) :
  scalar_line line initial_descriptors = Ok d1 ->
  d1 !! k = Some v -> v <> DNone ->
  (forall l, l ∈ post -> may_write k l = false) ->
  parse_lines (pre ++ line :: post) = Ok d ->
  d !! k = Some v.
Proof.
  intros Hline Hk Hv Hpost Hparse.
  assert (in_keys scalar_keys k = true
          /\ forall d0, scalar_line line d0 = Ok (<[k := v]> d0)) as [Hsk Hall].
  { destruct (scalar_line_uniform line) as [Hid | [[e He] | (k0 & v0 & Hk0 & Hw)]].
    - rewrite Hid in Hline. injection Hline as <-.
      apply none_dict_lookup in Hk. done.
    - rewrite He in Hline. discriminate.
    - rewrite Hw in Hline. injection Hline as <-.
      destruct (decide (k = k0)) as [->|Hne].
      + rewrite lookup_insert_eq in Hk. by injection Hk as ->.
      + rewrite lookup_insert_ne in Hk by done.
        apply none_dict_lookup in Hk. done. }
  unfold parse_lines in Hparse. bind_inv Hparse. rename a into dS.
  rewrite (later_passes_keep_scalars _ _ _ _ Hsk Hparse).
  unfold scalar_pass in Hbind. rewrite for_each_app in Hbind.
  bind_inv Hbind. rename a into dpre. simpl in Hbind. rewrite Hall in Hbind.
  cbn [rbind] in Hbind.
  eapply (for_each_inv (fun s => s !! k = Some v)); [| |exact Hbind].
  - intros l s s' Hin Hs Hstep. rewrite <- Hs.
    eapply scalar_line_frame; [done|]. by apply Hpost.
  - apply lookup_insert_eq.
Qed.

Lemma last_scalar_line_wins_witness :
  unwrap (parse_lines ([line_atoms] ++ line_atoms_two :: [line_bare_energy]))
  !! "atom_num" = Some (DInt 2).
Proof.
  apply (last_scalar_line_wins [line_atoms] [line_bare_energy] line_atoms_two
           "atom_num" (DInt 2)
           (unwrap (scalar_line line_atoms_two initial_descriptors))).
  - apply unwrap_ok. vm_compute. reflexivity.
  - vm_compute. reflexivity.
  - discriminate.
  - intros l Hin. apply list_elem_of_singleton in Hin as ->. reflexivity.
  - apply unwrap_ok. vm_compute. reflexivity.
Defined.

(** ** Tokens and atom labels *)

Lemma split_ws_tokens s t :
  t ∈ split_ws s -> t <> EmptyString /\ no_space t = true.
Proof.
  revert t. induction s as [|c s IH]; intros t; simpl.
  - by intros ?%elem_of_nil.
  - destruct (isspace c) eqn:Ec; [apply IH|].
    destruct s as [|c' s'].
    + intros ->%list_elem_of_singleton. unfold no_space. simpl. by rewrite Ec.
    + destruct (isspace c') eqn:Ec'.
      * intros [-> | Hin]%elem_of_cons; [|by apply IH].
        unfold no_space. simpl. by rewrite Ec.
      * destruct (split_ws (String c' s')) as [|h rest] eqn:E; simpl.
        -- intros ->%list_elem_of_singleton. unfold no_space. simpl. by rewrite Ec.
        -- intros [-> | Hin]%elem_of_cons.
           ++ destruct (IH h) as [_ Hh]; [by left|].
              unfold no_space in *. simpl. by rewrite Ec, Hh.
           ++ apply IH. by right.
Qed.

Lemma no_space_append a b :
  no_space (a +:+ b) = no_space a && no_space b.
Proof.
  unfold no_space. induction a as [|c a IH]; simpl; [done|].
  by rewrite IH, andb_assoc.
Qed.

Lemma rstrip_no_space s : no_space s = true -> rstrip s = s.
Proof.
  unfold no_space. induction s as [|c s IH]; simpl; [done|].
  intros [Hc Hs]%andb_prop. rewrite (IH Hs).
  apply negb_true_iff in Hc. rewrite Hc. by destruct s.
Qed.

Lemma lstrip_no_space s : no_space s = true -> lstrip s = s.
Proof.
  unfold no_space. destruct s as [|c s]; simpl; [done|].
  intros [Hc _]%andb_prop. apply negb_true_iff in Hc. by rewrite Hc.
Qed.

Lemma strip_no_space s : no_space s = true -> strip s = s.
Proof.
  intros H. unfold strip. rewrite (lstrip_no_space _ H). by apply rstrip_no_space.
Qed.

Lemma item_token line i t :
  PyList.item (split_ws line) i = Ok t -> t <> EmptyString /\ no_space t = true.
Proof.
  intros H%item_ok. apply (split_ws_tokens line).
  by eapply list_elem_of_lookup_2.
Qed.

Lemma append_not_empty a b : a <> EmptyString -> a +:+ b <> EmptyString.
Proof. by destruct a. Qed.

(** The label that a layout reads is not empty and has no whitespace, when
    the fixed text of the layout, if any, has none; trimming it changes
    nothing. *)
Lemma row_untrimmed L line :
  match label_rest L with TailText s => no_space s = true | TailToken _ => True end ->
  row_by_layout L line = row_by_layout (untrimmed L) line.
Proof.
  intros Htail. unfold row_by_layout.
  cbn [label_head label_rest value_token label_trimmed untrimmed].
  destruct (PyList.item (split_ws line) (label_head L)) as [h|] eqn:Eh;
    cbn [rbind]; [|done].
  destruct (match label_rest L with
            | TailToken j => PyList.item (split_ws line) j
            | TailText s => Ok s
            end) as [t|] eqn:Et; cbn [rbind]; [|done].
  destruct (PyList.item (split_ws line) (value_token L)); cbn [rbind]; [|done].
  destruct (py_float_r a); cbn [rbind]; [|done].
  destruct (label_trimmed L); [|done].
  rewrite strip_no_space; [done|].
  rewrite no_space_append. destruct (item_token _ _ _ Eh) as [_ ->].
  destruct (label_rest L).
  - by destruct (item_token _ _ _ Et) as [_ ->].
  - injection Et as <-. by rewrite Htail.
Qed.

Lemma row_label_clean L line a x :
  match label_rest L with TailText s => no_space s = true | TailToken _ => True end ->
  row_by_layout L line = Ok (a, x) ->
  a <> EmptyString /\ no_space a = true.
Proof.
  intros Htail H. rewrite row_untrimmed in H by done. unfold row_by_layout in H.
  cbn [label_head label_rest value_token label_trimmed untrimmed] in H.
  bind_inv H. rename a0 into h. bind_inv H. rename a0 into t.
  bind_inv H. bind_inv H. injection H as <- <-.
  destruct (item_token _ _ _ Hbind) as [Hh1 Hh2].
  split; [by apply append_not_empty|].
  rewrite no_space_append, Hh2. destruct (label_rest L).
  - by destruct (item_token _ _ _ Hbind0) as [_ ->].
  - injection Hbind0 as <-. by rewrite Htail.
Qed.

Lemma map_rows_labels row (P : string -> Prop) ls rows :
  (forall line a x, row line = Ok (a, x) -> P a) ->
  map_rows row ls = Ok rows -> Forall P rows.*1.
Proof.
  intros Hrow. revert rows. induction ls as [|l rest IH]; intros rows H; simpl in *.
  - injection H as <-. constructor.
  - bind_inv H. destruct a as [a x]. bind_inv H. injection H as <-.
    simpl. constructor; [by eapply Hrow | by apply IH].
Qed.

Lemma series_labels_clean L ls m :
  match label_rest L with TailText s => no_space s = true | TailToken _ => True end ->
  series_by_layout L ls = Ok m ->
  Forall (fun a => a <> EmptyString /\ no_space a = true) (atoms m).
Proof.
  intros Htail H. unfold series_by_layout in H. bind_inv H. injection H as <-.
  simpl. eapply map_rows_labels; [|done].
  intros line l x. by apply row_label_clean.
Qed.

Lemma key_layout_tail key L :
  key_layout key = Some L ->
  match label_rest L with TailText s => no_space s = true | TailToken _ => True end.
Proof.
  unfold key_layout.
  repeat match goal with
         | |- context [if ?c then _ else _] => destruct c
         end; intros [= <-]; done.
Qed.

(** X4: every atom label of every series of a returned record is a text
    that is not empty and contains no whitespace. *)
Theorem atom_labels_clean (contents : string) (d : descriptors) (key : string)
    (m : Molecule) :
  _get_other_descriptors contents = Ok d ->
  d !! key = Some (DMol m) ->
  Forall (fun a => a <> EmptyString /\ no_space a = true) (atoms m).
Proof.
  intros Hd Hk. apply parse_lines_windows in Hd as [_ Hall].
  destruct (Hall _ _ Hk) as (n & L & start & _ & HL & Hm).
  eapply series_labels_clean; [|done]. by eapply key_layout_tail.
Qed.

Lemma atom_labels_clean_witness :
  Forall (fun a => a <> EmptyString /\ no_space a = true) ["1(C)"; "2(H)"].
Proof.
  apply (atom_labels_clean (join_lines sample_short_window)
           (unwrap (_get_other_descriptors (join_lines sample_short_window)))
           "electron_density"
           (mkMolecule None ["1(C)"; "2(H)"] [FNum (11 # 2); FNum (1 # 2)])).
  - apply unwrap_ok. vm_compute. reflexivity.
  - vm_compute. reflexivity.
Defined.

(** X5: the trimming of the Hirshfeld labels never changes a label.  On
    every window [_read_charge] with the type ['Hirshfeld'] returns, or
    raises, what the reader of tokens 4 and 5 and value token 7 without
    trimming does. *)
Theorem hirshfeld_trim_changes_nothing (ls : list string) :
  _read_charge ls "Hirshfeld"
  = series_by_layout (mkLayout 4 (TailToken 5) false 7) ls.
Proof.
  rewrite _read_charge_Hirshfeld. unfold series_by_layout.
  rewrite (map_rows_ext _ (row_by_layout (untrimmed layout_Hirshfeld)) ls); [done|].
  intros line. by apply row_untrimmed.
Qed.

(** ** Rows that cannot be read *)

Lemma row_by_layout_cases L line :
  if row_well_formed L line then is_ok (row_by_layout L line) = true
  else row_by_layout L line = Raise (row_error L line).
Proof.
  unfold row_well_formed, row_error, row_by_layout, layout_reach, PyList.item.
  destruct (Nat.ltb_spec
              (Nat.max (label_head L)
                 (Nat.max match label_rest L with TailToken j => j | TailText _ => 0 end
                    (value_token L)))
              (length (split_ws line))) as [Hlt|Hge]; cbn [andb].
  - destruct (lookup_lt_is_Some_2 (split_ws line) (label_head L)) as [h ->]; [lia|].
    destruct (lookup_lt_is_Some_2 (split_ws line) (value_token L)) as [v ->]; [lia|].
    cbn [or_raise rbind].
    assert (exists t, match label_rest L with
                      | TailToken j => or_raise IndexError (split_ws line !! j)
                      | TailText s => Ok s
                      end = Ok t) as [t ->].
    { destruct (label_rest L) as [j|s]; [|eauto].
      destruct (lookup_lt_is_Some_2 (split_ws line) j) as [t ->]; [lia|].
      simpl. eauto. }
    cbn [rbind]. unfold py_float_r. by destruct (py_float v).
  - destruct (split_ws line !! label_head L) as [h|] eqn:Eh; cbn [or_raise rbind];
      [|done].
    destruct (label_rest L) as [j|s].
    + destruct (split_ws line !! j) as [t|] eqn:Et; cbn [or_raise rbind]; [|done].
      destruct (split_ws line !! value_token L) as [v|] eqn:Ev;
        cbn [or_raise rbind]; [|done].
      apply lookup_lt_Some in Eh, Et, Ev. lia.
    + cbn [rbind].
      destruct (split_ws line !! value_token L) as [v|] eqn:Ev;
        cbn [or_raise rbind]; [|done].
      apply lookup_lt_Some in Eh, Ev. lia.
Qed.

Lemma map_rows_is_ok L ls :
  is_ok (map_rows (row_by_layout L) ls) = forallb (row_well_formed L) ls.
Proof.
  induction ls as [|l rest IH]; simpl; [done|].
  pose proof (row_by_layout_cases L l) as H.
  destruct (row_well_formed L l); cbn [andb].
  - destruct (row_by_layout L l); [|discriminate]. cbn [rbind].
    rewrite <- IH. by destruct (map_rows (row_by_layout L) rest).
  - by rewrite H.
Qed.

Lemma map_rows_first_bad L good bad rest :
  forallb (row_well_formed L) good = true -> row_well_formed L bad = false ->
  map_rows (row_by_layout L) (good ++ bad :: rest) = Raise (row_error L bad).
Proof.
  intros Hgood Hbad. induction good as [|g good IH]; simpl in *.
  - pose proof (row_by_layout_cases L bad) as H. rewrite Hbad in H. by rewrite H.
  - apply andb_prop in Hgood as [Hg Hgood].
    pose proof (row_by_layout_cases L g) as H. rewrite Hg in H.
    destruct (row_by_layout L g); [|discriminate]. cbn [rbind].
    by rewrite (IH Hgood).
Qed.

Lemma series_rows L ls :
  is_ok (series_by_layout L ls) = forallb (row_well_formed L) ls
  /\ forall good bad rest,
       ls = good ++ bad :: rest ->
       forallb (row_well_formed L) good = true -> row_well_formed L bad = false ->
       series_by_layout L ls = Raise (row_error L bad).
Proof.
  unfold series_by_layout. split.
  - rewrite <- map_rows_is_ok. by destruct (map_rows (row_by_layout L) ls).
  - intros good bad rest -> Hgood Hbad. by rewrite map_rows_first_bad.
Qed.

Lemma _read_charge_layout ty L ls :
  charge_layout ty = Some L -> _read_charge ls ty = series_by_layout L ls.
Proof.
  unfold charge_layout.
  destruct (String.eqb_spec ty "RESP") as [->|_];
    [intros [= <-]; apply _read_charge_RESP|].
  destruct (String.eqb_spec ty "Hirshfeld") as [->|_];
    [intros [= <-]; apply _read_charge_Hirshfeld|].
  destruct (String.eqb_spec ty "ADCH") as [->|_];
    [intros [= <-]; apply _read_charge_ADCH|].
  destruct (String.eqb_spec ty "spin") as [->|_];
    [intros [= <-]; apply _read_charge_spin|].
  discriminate.
Qed.

(** X6: [_read_charge] with one of its four types returns exactly when every
    row of the window has a token at each index of the layout and a float
    as value token.  Otherwise it raises for the first row that has not, an
    [IndexError] when the row has too few tokens and a [ValueError] when its
    value token is not a float; the rows after it are not looked at. *)
Theorem _read_charge_malformed_row (ty : string) (L : layout) (ls : list string) :
  charge_layout ty = Some L ->
  is_ok (_read_charge ls ty) = forallb (row_well_formed L) ls
  /\ forall good bad rest,
       ls = good ++ bad :: rest ->
       forallb (row_well_formed L) good = true -> row_well_formed L bad = false ->
       _read_charge ls ty = Raise (row_error L bad).
Proof.
  intros HL. rewrite (_read_charge_layout _ _ _ HL). apply series_rows.
Qed.

Lemma _read_charge_malformed_row_witness :
  is_ok (_read_charge ["C 1 0.5"; "H 2"; "not a row"] "RESP")
  = forallb (row_well_formed layout_RESP) ["C 1 0.5"; "H 2"; "not a row"]
  /\ forall good bad rest,
       ["C 1 0.5"; "H 2"; "not a row"] = good ++ bad :: rest ->
       forallb (row_well_formed layout_RESP) good = true ->
       row_well_formed layout_RESP bad = false ->
       _read_charge ["C 1 0.5"; "H 2"; "not a row"] "RESP"
       = Raise (row_error layout_RESP bad).
Proof.
  apply (_read_charge_malformed_row "RESP" layout_RESP
           ["C 1 0.5"; "H 2"; "not a row"]).
  reflexivity.
Defined.

Example malformed_rows :
  _read_charge ["C 1 0.5"; "H 2"; "not a row"] "RESP" = Raise IndexError
  /\ _read_charge ["C 1 0.5"; "H 2 x"; "H 3"] "RESP" = Raise ValueError.
Proof. vm_compute. by split. Qed.

(** X7: [_read_fuzzy] with a name that is none of the three descriptor
    names returns the empty [Molecule] whatever the lines are; with one of
    the three names it returns exactly when every row has three tokens of
    which the third is a float, and otherwise raises for the first row that
    has not ([IndexError] for too few tokens, [ValueError] for a value that
    is not a float). *)
Theorem _read_fuzzy_rows (ls : list string) (descriptor_name : string) :
  (descriptor_name ∉ fuzzy_names ->
   _read_fuzzy ls descriptor_name = Ok (mkMolecule None [] []))
  /\ (descriptor_name ∈ fuzzy_names ->
      is_ok (_read_fuzzy ls descriptor_name)
      = forallb (row_well_formed layout_fuzzy) ls
      /\ forall good bad rest,
           ls = good ++ bad :: rest ->
           forallb (row_well_formed layout_fuzzy) good = true ->
           row_well_formed layout_fuzzy bad = false ->
           _read_fuzzy ls descriptor_name = Raise (row_error layout_fuzzy bad)).
Proof.
  split.
  - intros Hnot. unfold _read_fuzzy, when_type.
    assert (forall n, n ∈ fuzzy_names -> String.eqb descriptor_name n = false) as H.
    { intros n Hn. apply String.eqb_neq. by intros ->. }
    rewrite !H by (unfold fuzzy_names; listed). reflexivity.
  - intros Hin. rewrite (_read_fuzzy_known _ _ Hin). apply series_rows.
Qed.

Lemma _read_fuzzy_rows_witness :
  _read_fuzzy ["1(C ) 5.5"] "spin_density" = Ok (mkMolecule None [] []).
Proof.
  apply (proj1 (_read_fuzzy_rows ["1(C ) 5.5"] "spin_density")).
  unfold fuzzy_names. intros H.
  repeat (apply elem_of_cons in H as [? | H]; [discriminate|]).
  by apply elem_of_nil in H.
Defined.

(** ** The container methods of a series *)

Lemma list_getitem_nat {A : Type} (l : list A) (i : nat) (x : A) :
  l !! i = Some x -> list_getitem l (Z.of_nat i) = Ok x.
Proof.
  intros H. unfold list_getitem, PyList.item.
  destruct (Z.ltb_spec (Z.of_nat i) 0); [lia|].
  by rewrite Nat2Z.id, H.
Qed.

Lemma list_getitem_from_end {A : Type} (l : list A) (i : nat) (x : A) :
  l !! i = Some x ->
  list_getitem l (Z.of_nat i - Z.of_nat (length l)) = Ok x.
Proof.
  intros H. pose proof (lookup_lt_Some _ _ _ H) as Hlt.
  unfold list_getitem, PyList.item.
  destruct (Z.ltb_spec (Z.of_nat i - Z.of_nat (length l)) 0); [|lia].
  destruct (Z.ltb_spec (Z.of_nat i - Z.of_nat (length l) + Z.of_nat (length l)) 0);
    [lia|].
  replace (Z.of_nat i - Z.of_nat (length l) + Z.of_nat (length l))%Z
    with (Z.of_nat i) by lia.
  by rewrite Nat2Z.id, H.
Qed.

Lemma list_getitem_outside {A : Type} (l : list A) (i : Z) :
  (Z.of_nat (length l) <= i \/ i < - Z.of_nat (length l))%Z ->
  list_getitem l i = Raise IndexError.
Proof.
  intros H. unfold list_getitem, PyList.item.
  destruct (Z.ltb_spec i 0).
  - destruct (Z.ltb_spec (i + Z.of_nat (length l)) 0); [done|lia].
  - rewrite lookup_ge_None_2; [done|lia].
Qed.

Lemma molecule_container_aligned (m : Molecule) :
  length (atoms m) = length (charges m) ->
  length (__iter__ m) = mol_len m
  /\ (forall i p, __iter__ m !! i = Some p ->
        __getitem__ m (Z.of_nat i) = Ok p
        /\ __getitem__ m (Z.of_nat i - Z.of_nat (mol_len m)) = Ok p)
  /\ (forall i, (Z.of_nat (mol_len m) <= i \/ i < - Z.of_nat (mol_len m))%Z ->
        __getitem__ m i = Raise IndexError).
Proof.
  intros Hlen. unfold __iter__, __getitem__, mol_len. repeat split.
  - rewrite length_zip. lia.
  - apply lookup_zip_with_Some in H as (a & c & -> & Ha & Hc).
    by rewrite (list_getitem_nat _ _ _ Ha), (list_getitem_nat _ _ _ Hc).
  - apply lookup_zip_with_Some in H as (a & c & -> & Ha & Hc).
    rewrite (list_getitem_from_end _ _ _ Ha). rewrite Hlen.
    by rewrite (list_getitem_from_end _ _ _ Hc).
  - intros i Hi. by rewrite list_getitem_outside.
Qed.

(** X8: for every [Molecule] that [_read_charge] or [_read_fuzzy] returns,
    iterating yields [len(m)] pairs; the pair at position [i] is [m[i]] and
    also [m[i - len(m)]]; and [m[i]] raises [IndexError] for an index at or
    beyond [len(m)] or below [-len(m)]. *)
Theorem reader_molecule_container (ls : list string) (ty : string) (m : Molecule) :
  _read_charge ls ty = Ok m \/ _read_fuzzy ls ty = Ok m ->
  length (__iter__ m) = mol_len m
  /\ (forall i p, __iter__ m !! i = Some p ->
        __getitem__ m (Z.of_nat i) = Ok p
        /\ __getitem__ m (Z.of_nat i - Z.of_nat (mol_len m)) = Ok p)
  /\ (forall i, (Z.of_nat (mol_len m) <= i \/ i < - Z.of_nat (mol_len m))%Z ->
        __getitem__ m i = Raise IndexError).
Proof.
  intros H. apply molecule_container_aligned.
  destruct H as [H|H].
  - by apply _read_charge_shape in H as [_ ?].
  - by apply _read_fuzzy_shape in H as [_ ?].
Qed.

Lemma reader_molecule_container_witness :
  length (__iter__ (mkMolecule None ["C1"; "H2"] [FNum (1 # 2); FNum (-1 # 4)]))
  = mol_len (mkMolecule None ["C1"; "H2"] [FNum (1 # 2); FNum (-1 # 4)])
  /\ (forall i p,
        __iter__ (mkMolecule None ["C1"; "H2"] [FNum (1 # 2); FNum (-1 # 4)]) !! i
        = Some p ->
        __getitem__ (mkMolecule None ["C1"; "H2"] [FNum (1 # 2); FNum (-1 # 4)])
          (Z.of_nat i) = Ok p
        /\ __getitem__ (mkMolecule None ["C1"; "H2"] [FNum (1 # 2); FNum (-1 # 4)])
             (Z.of_nat i
              - Z.of_nat (mol_len (mkMolecule None ["C1"; "H2"]
                                     [FNum (1 # 2); FNum (-1 # 4)]))) = Ok p)
  /\ (forall i,
        (Z.of_nat (mol_len (mkMolecule None ["C1"; "H2"]
                              [FNum (1 # 2); FNum (-1 # 4)])) <= i
         \/ i < - Z.of_nat (mol_len (mkMolecule None ["C1"; "H2"]
                                       [FNum (1 # 2); FNum (-1 # 4)])))%Z ->
        __getitem__ (mkMolecule None ["C1"; "H2"] [FNum (1 # 2); FNum (-1 # 4)]) i
        = Raise IndexError).
Proof.
  apply (reader_molecule_container ["C 1 0.5"; " H  2  -0.25 x"] "RESP").
  left. vm_compute. reflexivity.
Defined.

(** ** The dictionary of a series *)

(** X9: [Molecule.from_dict] raises [KeyError] exactly when one of the keys
    ['name'], ['atoms'], ['charges'] is missing; every other key of the
    dictionary is ignored; and when it returns a [Molecule], [to_dict] of it
    holds under the three keys what the dictionary held. *)
Theorem from_dict_keys (d : gmap string mol_value) :
  (from_dict d = Raise KeyError
   <-> d !! "name" = None \/ d !! "atoms" = None \/ d !! "charges" = None)
  /\ (forall k v, k ∉ ["name"; "atoms"; "charges"] ->
        from_dict (<[k := v]> d) = from_dict d)
  /\ (forall m k, from_dict d = Ok m -> k ∈ ["name"; "atoms"; "charges"] ->
        to_dict m !! k = d !! k).
Proof.
  repeat split.
  - unfold from_dict, getitem.
    destruct (d !! "name") as [n|]; [|by left].
    destruct (d !! "atoms") as [a|]; [|by right; left].
    destruct (d !! "charges") as [c|]; [|by right; right].
    cbn [or_raise rbind]. by destruct n, a, c.
  - unfold from_dict, getitem. intros [-> | [-> | ->]]; cbn [or_raise rbind];
      try done.
    + by destruct (d !! "name").
    + destruct (d !! "name"); cbn [or_raise rbind]; [|done].
      by destruct (d !! "atoms").
  - intros k v Hk. unfold from_dict, getitem.
    rewrite !lookup_insert_ne; [done| | |]; intros ->; apply Hk; listed.
  - intros m k H Hk. unfold from_dict, getitem in H.
    destruct (d !! "name") as [n|] eqn:En; [|discriminate].
    destruct (d !! "atoms") as [a|] eqn:Ea; [|discriminate].
    destruct (d !! "charges") as [c|] eqn:Ec; [|discriminate].
    cbn [or_raise rbind] in H. destruct n, a, c; try discriminate.
    injection H as <-. unfold to_dict. cbn [name atoms charges].
    repeat (apply elem_of_cons in Hk as [-> | Hk]);
      [| | | by apply elem_of_nil in Hk];
      by rewrite ?lookup_insert_eq, ?lookup_insert_ne by done.
Qed.

Lemma from_dict_keys_witness :
  from_dict (<["label" := MName None]> (to_dict (mkMolecule None ["C1"] [FNaN])))
  = from_dict (to_dict (mkMolecule None ["C1"] [FNaN])).
Proof.
  apply (proj1 (proj2 (from_dict_keys (to_dict (mkMolecule None ["C1"] [FNaN]))))).
  intros H. repeat (apply elem_of_cons in H as [? | H]; [discriminate|]).
  by apply elem_of_nil in H.
Defined.

(** ** The record of the CDFT report and the merged record *)

Lemma none_dict_lookup_cases keys key :
  none_dict keys !! key = if in_keys keys key then Some DNone else None.
Proof.
  unfold none_dict.
  destruct (in_keys keys key) eqn:E.
  - apply in_keys_spec in E. apply elem_of_list_to_map_1'.
    + intros v Hin. apply list_elem_of_fmap in Hin as (k & [= _ ->] & _). done.
    + apply list_elem_of_fmap. by exists key.
  - apply not_elem_of_list_to_map. intros Hin.
    rewrite <- list_fmap_compose in Hin.
    apply list_elem_of_fmap in Hin as (k & -> & Hk).
    apply in_keys_spec in Hk. simpl in E. congruence.
Qed.

Lemma cdft_value_kind contents name v :
  cdft_value contents name = Ok v -> v = DNone \/ exists x, v = DFloat x.
Proof.
  unfold cdft_value. destruct (_find_descriptor contents name).
  - intros H. bind_inv H. injection H as <-. eauto.
  - intros [= <-]. by left.
Qed.

Lemma cdft_record_shape contents d :
  _get_cdft_descriptors contents = Ok d ->
  forall key,
    match d !! key with
    | Some v => in_keys cdft_keys key = true
                /\ (v = DNone \/ exists x, v = DFloat x)
    | None => in_keys cdft_keys key = false
    end.
Proof.
  rewrite _get_cdft_descriptors_values. intros H key.
  repeat bind_inv H. injection H as <-.
  repeat match goal with
         | E : cdft_value _ _ = Ok _ |- _ => apply cdft_value_kind in E
         end.
  repeat match goal with
         | |- context [<[?k0 := _]> _ !! key] =>
             destruct (decide (key = k0)) as [->|];
             [ rewrite lookup_insert_eq; by split
             | rewrite lookup_insert_ne by done ]
         end.
  rewrite none_dict_lookup_cases. destruct (in_keys cdft_keys key); [|done].
  split; [done | by left].
Qed.

(** X10: a record returned by [_get_cdft_descriptors] has exactly the five
    CDFT keys, and under each of them [None] or a [float]. *)
Theorem cdft_record_has_schema (contents : string) (d : descriptors) :
  _get_cdft_descriptors contents = Ok d ->
  (forall key, is_Some (d !! key) <-> key ∈ cdft_keys)
  /\ (forall key v, d !! key = Some v -> v = DNone \/ exists x, v = DFloat x).
Proof.
  intros H. pose proof (cdft_record_shape _ _ H) as Hshape. split.
  - intros key. specialize (Hshape key). rewrite <- in_keys_spec.
    destruct (d !! key).
    + destruct Hshape as [-> _]. split; [done | eauto].
    + rewrite Hshape. split; [by intros [? ?] | done].
  - intros key v E. specialize (Hshape key). rewrite E in Hshape.
    by destruct Hshape.
Qed.

Lemma cdft_record_has_schema_witness :
  (forall key,
      is_Some (unwrap (_get_cdft_descriptors "Chemical potential: -0.5 eV") !! key)
      <-> key ∈ cdft_keys)
  /\ (forall key v,
        unwrap (_get_cdft_descriptors "Chemical potential: -0.5 eV") !! key = Some v ->
        v = DNone \/ exists x, v = DFloat x).
Proof.
  apply (cdft_record_has_schema "Chemical potential: -0.5 eV").
  apply unwrap_ok. vm_compute. reflexivity.
Defined.

Lemma other_key_not_cdft key :
  in_keys other_keys key = true -> in_keys cdft_keys key = false.
Proof.
  intros Hk%in_keys_spec. unfold other_keys in Hk.
  repeat (apply elem_of_cons in Hk as [-> | Hk]; [reflexivity|]).
  by apply elem_of_nil in Hk.
Qed.

(** X11: [get_descriptors] returns a record exactly when both parsers do;
    the error of the general report comes first.  The merged record has the
    32 keys of the general record and the 5 keys of the CDFT record, each
    with the value of its own parser: no key of one overrides a key of the
    other. *)
Theorem get_descriptors_merge (cdft_contents contents : string) :
  (forall e, _get_other_descriptors contents = Raise e ->
     get_descriptors cdft_contents contents = Raise e)
  /\ (forall e, is_ok (_get_other_descriptors contents) = true ->
        _get_cdft_descriptors cdft_contents = Raise e ->
        get_descriptors cdft_contents contents = Raise e)
  /\ (forall od cd,
        _get_other_descriptors contents = Ok od ->
        _get_cdft_descriptors cdft_contents = Ok cd ->
        exists d, get_descriptors cdft_contents contents = Ok d
          /\ (forall key, key ∈ other_keys -> d !! key = od !! key)
          /\ (forall key, key ∈ cdft_keys -> d !! key = cd !! key)
          /\ (forall key, is_Some (d !! key) <-> key ∈ other_keys ++ cdft_keys)).
Proof.
  unfold get_descriptors. repeat split.
  - intros e ->. done.
  - intros e Hok ->. by destruct (_get_other_descriptors contents).
  - intros od cd Hod Hcd. rewrite Hod, Hcd. cbn [rbind].
    exists (cd ∪ od). split; [done|].
    pose proof (cdft_record_shape _ _ Hcd) as Hc.
    pose proof (parse_lines_schema _ _ Hod) as Ho.
    repeat split.
    + intros key Hk%in_keys_spec. apply lookup_union_r.
      specialize (Hc key). destruct (cd !! key) as [v|]; [|done].
      destruct Hc as [Hc _]. by rewrite (other_key_not_cdft _ Hk) in Hc.
    + intros key Hk%in_keys_spec. specialize (Hc key).
      destruct (cd !! key) as [v|] eqn:E; [|congruence].
      by apply lookup_union_Some_l.
    + intros [v Hv]. apply elem_of_app. apply lookup_union_Some_raw in Hv.
      destruct Hv as [Hv | [_ Hv]].
      * right. specialize (Hc key). rewrite Hv in Hc. destruct Hc as [Hc _].
        by apply in_keys_spec.
      * left. apply (schema_keys other_keys od); [done | eauto].
    + intros [Hk | Hk]%elem_of_app.
      * apply (schema_keys other_keys od key Ho) in Hk as [v Hv].
        destruct (cd !! key) as [w|] eqn:E.
        -- exists w. by apply lookup_union_Some_l.
        -- exists v. rewrite lookup_union_r; done.
      * apply in_keys_spec in Hk. specialize (Hc key).
        destruct (cd !! key) as [w|] eqn:E; [|congruence].
        exists w. by apply lookup_union_Some_l.
Qed.

Lemma get_descriptors_merge_witness :
  get_descriptors "Chemical potential: -0.5 eV" summary_heading = Raise IndexError.
Proof.
  apply (proj1 (get_descriptors_merge "Chemical potential: -0.5 eV" summary_heading)).
  vm_compute. reflexivity.
Defined.

(** ** The fuzzy sections: one series per rank *)

Section ByRankInvariant.
Variable handler : nat -> nat -> descriptors -> result descriptors.
Variable keys : nat -> list string.
Variable Inv : descriptors -> Prop.
Hypothesis frame : forall idx rank d d',
    handler idx rank d = Ok d' -> forall k, k ∉ keys rank -> d' !! k = d !! k.
Hypothesis disjoint : forall r1 r2 k, r1 <> r2 -> k ∈ keys r1 -> k ∉ keys r2.
Hypothesis preserved : forall idx rank d d',
    handler idx rank d = Ok d' -> Inv d -> Inv d'.

Lemma by_rank_lookup_inv occ : forall rank d d' r idx,
    Inv d ->
    by_rank handler rank occ d = Ok d' -> occ !! r = Some idx ->
    exists d0 d1, Inv d0 /\ handler idx (rank + S r) d0 = Ok d1
      /\ forall k, k ∈ keys (rank + S r) -> d' !! k = d1 !! k.
Proof.
  induction occ as [|i rest IH]; intros rank d d' r idx Hd H Hr; [done|].
  simpl in H. bind_inv H. destruct r as [|r]; simpl in Hr.
  - injection Hr as ->. rewrite Nat.add_1_r. exists d, a. repeat split; [done..|].
    intros k Hk. eapply (by_rank_frame handler keys frame); [done|].
    intros r Hlt. eapply disjoint; [|done]. lia.
  - destruct (IH (S rank) a d' r idx) as (d0 & d1 & H0 & H1 & H2);
      [by eapply preserved|done|done|].
    exists d0, d1. by rewrite <- Nat.add_succ_comm.
Qed.
End ByRankInvariant.

Lemma fuzzy_rank_frame lines idx rank d d' :
  fuzzy_rank lines idx rank d = Ok d' ->
  forall k, k ∉ fuzzy_keys rank -> d' !! k = d !! k.
Proof.
  intros H k Hk. unfold fuzzy_rank in H.
  destruct rank as [|[|[|[|r]]]]; try (by injection H as <-);
    apply fuzzy_section_inv in H as (n & m & _ & _ & ->);
    (rewrite lookup_insert_ne; [done|]; intros <-; apply Hk;
     unfold fuzzy_keys; simpl; by left).
Qed.

Lemma fuzzy_keys_disjoint r1 r2 k :
  r1 <> r2 -> k ∈ fuzzy_keys r1 -> k ∉ fuzzy_keys r2.
Proof.
  intros Hne H1 H2.
  destruct r1 as [|[|[|[|r1]]]]; unfold fuzzy_keys in H1; simpl in H1;
    try (by apply elem_of_nil in H1);
    apply list_elem_of_singleton in H1 as ->;
    destruct r2 as [|[|[|[|r2]]]]; unfold fuzzy_keys in H2; simpl in H2;
    try done; try (by apply elem_of_nil in H2);
    by apply list_elem_of_singleton in H2.
Qed.

Lemma fuzzy_rank_keeps_count lines idx rank d d' :
  fuzzy_rank lines idx rank d = Ok d' -> d' !! "atom_num" = d !! "atom_num".
Proof.
  intros H. eapply fuzzy_rank_frame; [done|].
  destruct rank as [|[|[|[|r]]]]; unfold fuzzy_keys; simpl;
    try (by intros ?%elem_of_nil);
    by intros ?%list_elem_of_singleton.
Qed.



(** ** The commands of a run *)

Lemma lstrip_blank s : blank s = true -> lstrip s = EmptyString.
Proof.
  induction s as [|c s IH]; [done|]. unfold blank. simpl.
  intros [Hc Hs]%andb_true_iff. rewrite Hc. by apply IH.
Qed.

Lemma lstrip_head s :
  blank s = false ->
  exists a t, lstrip s = String a t /\ isspace a = false.
Proof.
  induction s as [|c s IH]; [done|]. unfold blank. simpl.
  destruct (isspace c) eqn:Hc; [|by exists c, s].
  simpl. by apply IH.
Qed.

Lemma rstrip_head a t :
  isspace a = false -> rstrip (String a t) = String a (rstrip t).
Proof. intros Ha. simpl. rewrite Ha. by destruct (rstrip t). Qed.

Lemma rstrip_last s :
  rstrip s = EmptyString
  \/ exists b, last_char None (rstrip s) = Some b /\ isspace b = false.
Proof.
  induction s as [|c s IH]; [by left|]. simpl.
  destruct IH as [-> | (b & Hb & Hsp)].
  - destruct (isspace c) eqn:Hc; [by left|]. right. by exists c.
  - right. exists b. split; [|done].
    destruct (rstrip s) as [|d r]; [done|]. exact Hb.
Qed.

Lemma last_char_passes p s b :
  last_char None s = Some b -> last_char p s = Some b.
Proof.
  revert p; induction s as [|c s IH]; intros p; [done|].
  simpl. intros H. destruct s as [|d s]; [done|]. simpl. simpl in H. exact H.
Qed.

Lemma rstrip_clean s b :
  last_char None s = Some b -> isspace b = false -> rstrip s = s.
Proof.
  induction s as [|c s IH]; [done|]. simpl. intros H Hb.
  destruct s as [|d s].
  - injection H as ->. simpl. by rewrite Hb.
  - rewrite IH; [done| |done]. simpl. simpl in H. exact H.
Qed.

Lemma strip_blank s : blank s = true -> strip s = EmptyString.
Proof. intros H. unfold strip. by rewrite lstrip_blank. Qed.

Lemma strip_ends s :
  blank s = false ->
  exists a b, head_char (strip s) = Some a /\ last_char None (strip s) = Some b
    /\ isspace a = false /\ isspace b = false.
Proof.
  intros H. destruct (lstrip_head _ H) as (a & t & Hl & Ha).
  unfold strip. rewrite Hl.
  destruct (rstrip_last (String a t)) as [E | (b & Hb & Hsp)].
  - by rewrite rstrip_head in E.
  - exists a, b. repeat split; [|done..]. by rewrite rstrip_head.
Qed.

Lemma strip_clean s a b :
  head_char s = Some a -> last_char None s = Some b ->
  isspace a = false -> isspace b = false -> strip s = s.
Proof.
  intros Ha Hb Hsa Hsb. unfold strip.
  destruct s as [|c s]; [done|]. injection Ha as ->.
  simpl lstrip. rewrite Hsa. by eapply rstrip_clean.
Qed.

Lemma truthy_strip s : truthy (strip s) = negb (blank s).
Proof.
  destruct (blank s) eqn:E.
  - by rewrite strip_blank.
  - destruct (strip_ends _ E) as (a & b & Ha & _).
    by destruct (strip s).
Qed.

Lemma parse_commands_elem commands c :
  c ∈ parse_commands commands <->
  exists line, line ∈ commands /\ blank line = false /\ c = strip line.
Proof.
  induction commands as [|l rest IH]; simpl.
  - split; [by intros ?%elem_of_nil | by intros (? & ?%elem_of_nil & _)].
  - rewrite truthy_strip. destruct (blank l) eqn:E; simpl.
    + rewrite IH. split.
      * intros (line & ? & ? & ?). exists line. split; [by right|done].
      * intros (line & [->|?]%elem_of_cons & Hb & ?); [congruence|by exists line].
    + rewrite elem_of_cons, IH. split.
      * intros [-> | (line & ? & ? & ?)]; [exists l; split; [by left|done]|].
        exists line. split; [by right|done].
      * intros (line & [->|?]%elem_of_cons & Hb & ?); [by left|right; by exists line].
Qed.

(** X13: the commands that [parse_commands] returns are the stripped lines
    of the file that are not blank, in the order of the file: each begins
    and ends with a character that is not whitespace; none is returned
    exactly when every line is blank; and parsing the returned commands
    again returns them unchanged. *)
Theorem parse_commands_clean (commands : list string) :
  (forall c, c ∈ parse_commands commands <->
     exists line, line ∈ commands /\ blank line = false /\ c = strip line)
  /\ (forall c, c ∈ parse_commands commands ->
        exists a b, head_char c = Some a /\ last_char None c = Some b
          /\ isspace a = false /\ isspace b = false)
  /\ (parse_commands commands = []
      <-> forall line, line ∈ commands -> blank line = true)
  /\ parse_commands (parse_commands commands) = parse_commands commands
  /\ (forall more, parse_commands (commands ++ more)
                   = parse_commands commands ++ parse_commands more).
Proof.
  split; [intros c; apply parse_commands_elem|].
  assert (forall c, c ∈ parse_commands commands ->
     exists a b, head_char c = Some a /\ last_char None c = Some b
       /\ isspace a = false /\ isspace b = false) as Hends.
  { intros c (line & _ & Hb & ->)%parse_commands_elem. by apply strip_ends. }
  split; [exact Hends|]. split; [|split].
  - split.
    + intros E line Hin. destruct (blank line) eqn:Hb; [done|].
      assert (strip line ∈ parse_commands commands) as Hc
        by (apply parse_commands_elem; by exists line).
      rewrite E in Hc. by apply elem_of_nil in Hc.
    + intros Hall. destruct (parse_commands commands) as [|c l] eqn:E; [done|].
      assert (c ∈ parse_commands commands) as Hc by (rewrite E; by left).
      apply parse_commands_elem in Hc as (line & Hin & Hb & _).
      rewrite (Hall _ Hin) in Hb. discriminate.
  - induction (parse_commands commands) as [|c l IH]; [done|].
    destruct (Hends c) as (a & b & Ha & Hb & Hsa & Hsb); [by left|].
    simpl. rewrite (strip_clean c a b) by done.
    destruct c; [done|]. simpl. f_equal. apply IH.
    intros c' Hc'. apply Hends. by right.
  - clear Hends. intros more. induction commands as [|l rest IH]; [done|].
    simpl. destruct (truthy (strip l)); [|apply IH].
    simpl. f_equal. apply IH.
Qed.

Lemma parse_commands_clean_witness :
  exists a b, head_char "100" = Some a /\ last_char None "100" = Some b
    /\ isspace a = false /\ isspace b = false.
Proof.
  apply (proj1 (proj2 (parse_commands_clean [" 100 "; "  "; "q"])) "100").
  vm_compute. by left.
Defined.

(** ** The report files in the order of their numbers *)

Lemma file_number_error x e : file_number x = Raise e -> e = ValueError.
Proof.
  unfold file_number, split.
  pose proof (split_go_not_nil "." 0 (basename x)) as Hne.
  destruct (split_go "." 0 (basename x)) as [|stem l]; [done|].
  cbn [PyList.item lookup list_lookup or_raise rbind]. unfold py_int_r.
  destruct (py_int stem); cbn [or_raise]; congruence.
Qed.

Lemma sort_keys_ok key l keyed :
  sort_keys key l = Ok keyed ->
  keyed.*2 = l /\ forall k x, (k, x) ∈ keyed -> key x = Ok k.
Proof.
  revert keyed; induction l as [|x rest IH]; intros keyed H; simpl in H.
  - injection H as <-. split; [done|]. by intros k x ?%elem_of_nil.
  - destruct (key x) as [k|] eqn:Ek; cbn [rbind] in H; [|done].
    destruct (sort_keys key rest) as [keyed'|] eqn:Er; cbn [rbind] in H; [|done].
    injection H as <-. destruct (IH _ eq_refl) as [E Hk].
    split; [by rewrite fmap_cons, E|].
    intros k' y [[= -> ->] | Hin]%elem_of_cons; [done | by apply Hk].
Qed.

Lemma sort_keys_raise key l e :
  sort_keys key l = Raise e -> exists x, x ∈ l /\ key x = Raise e.
Proof.
  induction l as [|x rest IH]; simpl; [done|].
  destruct (key x) as [k|e'] eqn:E; cbn [rbind].
  - destruct (sort_keys key rest) as [keyed|e'] eqn:E'; cbn [rbind]; [done|].
    intros [= ->]. destruct IH as (y & Hy & Hk); [done|].
    exists y. split; [by right|done].
  - intros [= ->]. exists x. split; [by left|done].
Qed.

Lemma insert_by_key_perm a l : insert_by_key a l ≡ₚ a :: l.
Proof.
  induction l as [|b rest IH]; simpl; [done|].
  destruct (a.1 <=? b.1)%Z; [done|]. rewrite IH. apply perm_swap.
Qed.

Lemma sorted_by_key_perm keyed : foldr insert_by_key [] keyed ≡ₚ keyed.
Proof.
  induction keyed as [|a rest IH]; simpl; [done|].
  by rewrite insert_by_key_perm, IH.
Qed.

Lemma insert_by_key_sorted a l :
  StronglySorted key_le l -> StronglySorted key_le (insert_by_key a l).
Proof.
  induction l as [|b rest IH]; simpl; intros H.
  - apply StronglySorted_cons. split; [done|constructor].
  - apply StronglySorted_cons in H as [Hb Hrest].
    destruct (Z.leb_spec a.1 b.1) as [Hle|Hlt].
    + apply StronglySorted_cons. split; [|by apply StronglySorted_cons].
      constructor; [done|]. eapply Forall_impl; [done|].
      intros c Hc. unfold key_le in *. lia.
    + apply StronglySorted_cons. split; [|by apply IH].
      rewrite insert_by_key_perm. constructor; [|done]. unfold key_le. lia.
Qed.

Lemma sorted_by_key_sorted keyed :
  StronglySorted key_le (foldr insert_by_key [] keyed).
Proof.
  induction keyed as [|a rest IH]; simpl; [constructor|].
  by apply insert_by_key_sorted.
Qed.

Lemma strongly_sorted_lookup {A} (R : relation A) l i j x y :
  StronglySorted R l -> i < j -> l !! i = Some x -> l !! j = Some y -> R x y.
Proof.
  intros H; revert i j; induction H as [|a l Hl IH Ha]; intros i j Hij Hi Hj;
    [done|].
  destruct j as [|j]; [lia|]. simpl in Hj.
  destruct i as [|i]; simpl in Hi.
  - injection Hi as ->. rewrite Forall_forall in Ha.
    apply Ha. by eapply list_elem_of_lookup_2.
  - apply (IH i j); [lia|done..].
Qed.

(** What [list_sort] returns: a rearrangement of the list, every element of
    which has a key, in ascending order of the keys. *)
Lemma list_sort_ok key l o :
  list_sort key l = Ok o ->
  o ≡ₚ l
  /\ (forall x, x ∈ l -> exists k, key x = Ok k)
  /\ exists keyed, o = keyed.*2 /\ StronglySorted key_le keyed
       /\ forall k x, (k, x) ∈ keyed -> key x = Ok k.
Proof.
  unfold list_sort. intros H. bind_inv H. injection H as <-.
  destruct (sort_keys_ok _ _ _ Hbind) as [E Hk]. repeat split.
  - by rewrite sorted_by_key_perm, E.
  - intros x Hx. rewrite <- E in Hx.
    apply list_elem_of_fmap in Hx as ([k y] & -> & Hin). exists k. by apply Hk.
  - exists (foldr insert_by_key [] a). repeat split.
    + apply sorted_by_key_sorted.
    + intros k x Hin. apply Hk. by rewrite <- sorted_by_key_perm.
Qed.

Lemma list_sort_raise key l e :
  list_sort key l = Raise e -> exists x, x ∈ l /\ key x = Raise e.
Proof.
  unfold list_sort. destruct (sort_keys key l) eqn:E; cbn [rbind]; [done|].
  intros [= ->]. by apply sort_keys_raise.
Qed.

Lemma list_sort_total key l :
  (forall x, x ∈ l -> exists k, key x = Ok k) -> exists o, list_sort key l = Ok o.
Proof.
  intros H. destruct (list_sort key l) as [o|e] eqn:E; [by exists o|].
  apply list_sort_raise in E as (x & Hx & Hk).
  destruct (H x Hx) as [k Hk']. congruence.
Qed.

Lemma other_files_spec set_order cdft all x :
  enumerates set_order ->
  x ∈ set_order (list_difference (remove_dups all) cdft) <-> x ∈ all /\ x ∉ cdft.
Proof.
  intros H. rewrite (H _), list_elem_of_difference, elem_of_remove_dups. done.
Qed.

Lemma other_files_nodup set_order cdft all :
  enumerates set_order ->
  NoDup (set_order (list_difference (remove_dups all) cdft)).
Proof.
  intros H. rewrite (H _). apply NoDup_list_difference, NoDup_remove_dups.
Qed.

(** X14: [get_output_files] either raises [ValueError], and then some
    report file outside the CDFT list has a name that does not begin with
    an integer followed by a dot or the end of the name; or it returns the
    CDFT list as [glob] gave it and, second, the other report files, each
    once, every one numbered, in ascending order of their numbers. *)
Theorem get_output_files_sorted (set_order : list string -> list string)
    (cdft_txt_files all_txt_files : list string) :
  enumerates set_order ->
  match get_output_files set_order cdft_txt_files all_txt_files with
  | Ok (cdft, other) =>
      cdft = cdft_txt_files
      /\ NoDup other
      /\ (forall x, x ∈ other <-> x ∈ all_txt_files /\ x ∉ cdft_txt_files)
      /\ (forall x, x ∈ other -> exists n, file_number x = Ok n)
      /\ in_number_order other
  | Raise e =>
      e = ValueError
      /\ exists x, x ∈ all_txt_files /\ (x ∉ cdft_txt_files)
           /\ file_number x = Raise ValueError
  end.
Proof.
  intros Henum. unfold get_output_files.
  destruct (list_sort file_number _) as [o|e] eqn:E; cbn [rbind].
  - destruct (list_sort_ok _ _ _ E) as (Hperm & Hkeys & keyed & -> & Hs & Hk).
    split; [done|]. split; [|split; [|split]].
    + rewrite Hperm. by apply other_files_nodup.
    + intros x. rewrite Hperm. by apply other_files_spec.
    + intros x Hx. apply Hkeys. by rewrite <- Hperm.
    + intros i j x y Hij Hi Hj.
      apply list_lookup_fmap_Some in Hi as ([m x'] & -> & Hi).
      apply list_lookup_fmap_Some in Hj as ([n y'] & -> & Hj).
      exists m, n. split; [|split].
      * apply Hk. by eapply list_elem_of_lookup_2.
      * apply Hk. by eapply list_elem_of_lookup_2.
      * apply (strongly_sorted_lookup key_le keyed i j (m, x') (n, y')); done.
  - apply list_sort_raise in E as (x & Hx & Hk).
    pose proof (file_number_error _ _ Hk) as ->. split; [done|].
    exists x. apply (other_files_spec _ _ _ _ Henum) in Hx as [? ?]. done.
Qed.

Lemma get_output_files_sorted_witness :
  match get_output_files reverse ["out/2-CDFT.txt"; "out/10-CDFT.txt"]
          ["out/10-CDFT.txt"; "out/2.txt"; "out/2-CDFT.txt"; "out/10.txt"] with
  | Ok (cdft, other) =>
      cdft = ["out/2-CDFT.txt"; "out/10-CDFT.txt"]
      /\ NoDup other
      /\ (forall x, x ∈ other <->
            x ∈ ["out/10-CDFT.txt"; "out/2.txt"; "out/2-CDFT.txt"; "out/10.txt"]
            /\ x ∉ ["out/2-CDFT.txt"; "out/10-CDFT.txt"])
      /\ (forall x, x ∈ other -> exists n, file_number x = Ok n)
      /\ in_number_order other
  | Raise e =>
      e = ValueError
      /\ exists x,
           x ∈ ["out/10-CDFT.txt"; "out/2.txt"; "out/2-CDFT.txt"; "out/10.txt"]
           /\ (x ∉ ["out/2-CDFT.txt"; "out/10-CDFT.txt"])
           /\ file_number x = Raise ValueError
  end.
Proof.
  apply (get_output_files_sorted reverse).
  intros l. apply reverse_Permutation.
Defined.

Lemma keyed_by_number (keyed : list (Z * string)) :
  (forall k x, (k, x) ∈ keyed -> file_number x = Ok k) ->
  keyed = (fun x => (number_of x, x)) <$> keyed.*2.
Proof.
  induction keyed as [|[k x] rest IH]; intros H; [done|].
  rewrite !fmap_cons. cbn [snd]. f_equal.
  - unfold number_of. rewrite (H k x); [done|by left].
  - apply IH. intros k' x' Hin. apply H. by right.
Qed.

(** X15: when the report files outside the CDFT list have pairwise
    different numbers, the result of [get_output_files] does not depend on
    the order in which Python enumerates the set of these files. *)
Theorem get_output_files_order_free (order1 order2 : list string -> list string)
    (cdft_txt_files all_txt_files : list string) :
  enumerates order1 -> enumerates order2 ->
  (forall x y n, x ∈ all_txt_files -> y ∈ all_txt_files ->
     x ∉ cdft_txt_files -> y ∉ cdft_txt_files ->
     file_number x = Ok n -> file_number y = Ok n -> x = y) ->
  get_output_files order1 cdft_txt_files all_txt_files
  = get_output_files order2 cdft_txt_files all_txt_files.
Proof.
  intros H1 H2 Hinj. unfold get_output_files.
  set (members := list_difference (remove_dups all_txt_files) cdft_txt_files).
  assert (forall x, x ∈ members -> x ∈ all_txt_files /\ x ∉ cdft_txt_files) as Hmem.
  { intros x. unfold members.
    by rewrite list_elem_of_difference, elem_of_remove_dups. }
  destruct (list_sort file_number (order1 members)) as [o1|e1] eqn:E1;
    destruct (list_sort file_number (order2 members)) as [o2|e2] eqn:E2;
    cbn [rbind].
  - do 2 f_equal.
    destruct (list_sort_ok _ _ _ E1) as (Hp1 & Hk1 & keyed1 & -> & Hs1 & Hv1).
    destruct (list_sort_ok _ _ _ E2) as (Hp2 & Hk2 & keyed2 & -> & Hs2 & Hv2).
    f_equal.
    apply (StronglySorted_unique_strong key_le); [|done..|].
    + intros [m x] [n y] Hx Hy Hle Hge. unfold key_le in Hle, Hge.
      simpl in Hle, Hge. assert (m = n) as -> by lia. f_equal.
      apply (Hinj x y n).
      * apply Hmem. rewrite <- (H1 members), <- Hp1.
        apply list_elem_of_fmap. by exists (n, x).
      * apply Hmem. rewrite <- (H2 members), <- Hp2.
        apply list_elem_of_fmap. by exists (n, y).
      * apply Hmem. rewrite <- (H1 members), <- Hp1.
        apply list_elem_of_fmap. by exists (n, x).
      * apply Hmem. rewrite <- (H2 members), <- Hp2.
        apply list_elem_of_fmap. by exists (n, y).
      * by apply Hv1.
      * by apply Hv2.
    + rewrite (keyed_by_number keyed1), (keyed_by_number keyed2) by done.
      apply fmap_Permutation. by rewrite Hp1, Hp2, (H1 members), (H2 members).
  - apply list_sort_raise in E2 as (x & Hx & Hk).
    destruct (list_sort_ok _ _ _ E1) as (Hp1 & Hk1 & _).
    destruct (Hk1 x) as [k Hk']; [|congruence].
    by rewrite (H1 members), <- (H2 members).
  - apply list_sort_raise in E1 as (x & Hx & Hk).
    destruct (list_sort_ok _ _ _ E2) as (Hp2 & Hk2 & _).
    destruct (Hk2 x) as [k Hk']; [|congruence].
    by rewrite (H2 members), <- (H1 members).
  - apply list_sort_raise in E1 as (x & _ & Hx).
    apply list_sort_raise in E2 as (y & _ & Hy).
    by rewrite (file_number_error _ _ Hx), (file_number_error _ _ Hy).
Qed.

Lemma get_output_files_order_free_witness :
  get_output_files reverse ["out/1-CDFT.txt"] ["out/10.txt"; "out/1-CDFT.txt"; "out/2.txt"]
  = get_output_files (fun l => l) ["out/1-CDFT.txt"]
      ["out/10.txt"; "out/1-CDFT.txt"; "out/2.txt"].
Proof.
  apply (get_output_files_order_free reverse (fun l => l)).
  - intros l. apply reverse_Permutation.
  - intros l. reflexivity.
  - intros x y n Hx Hy _ _.
    rewrite !elem_of_cons in Hx, Hy.
    destruct Hx as [-> | [-> | [-> | Hx]]]; [| | |by apply elem_of_nil in Hx];
      destruct Hy as [-> | [-> | [-> | Hy]]]; try (by apply elem_of_nil in Hy);
      vm_compute; congruence.
Defined.

(** ** The output file of a run *)

Lemma replace_go_skip old new u : forall t,
  replace_go old new (String.length u) (u +:+ t) = replace_go old new 0 t.
Proof.
  induction u as [|c u IH]; intros t; simpl; [by destruct t | apply IH].
Qed.

(** The two equations of [replace]: at an occurrence, and elsewhere. *)
Lemma replace_match a old new t :
  replace (String a old) new (String a old +:+ t) = new +:+ replace (String a old) new t.
Proof.
  unfold replace. change (String a old +:+ t) with (String a (old +:+ t)).
  cbn [replace_go].
  change (String a (old +:+ t)) with (String a old +:+ t).
  rewrite starts_with_append. f_equal.
  change (String.length (String a old) - 1) with (String.length old - 0).
  rewrite Nat.sub_0_r. apply replace_go_skip.
Qed.

Lemma replace_other old new c s :
  starts_with old (String c s) = false ->
  replace old new (String c s) = String c (replace old new s).
Proof. unfold replace. cbn [replace_go]. by intros ->. Qed.

Lemma replace_absent old new s :
  contains old s = false -> replace old new s = s.
Proof.
  induction s as [|c s IH]; [done|]. cbn [contains].
  intros [Hs Hc]%orb_false_iff. rewrite replace_other by done. by rewrite IH.
Qed.

Lemma str_length_append a b :
  String.length (a +:+ b) = String.length a + String.length b.
Proof. induction a as [|c a IH]; simpl; [done | by rewrite IH]. Qed.

(** A property of [replace] follows from the two equations. *)
Lemma replace_ind a old new (P : string -> string -> Prop) :
  P EmptyString EmptyString ->
  (forall t, P t (replace (String a old) new t) ->
     P (String a old +:+ t) (new +:+ replace (String a old) new t)) ->
  (forall c s, starts_with (String a old) (String c s) = false ->
     P s (replace (String a old) new s) ->
     P (String c s) (String c (replace (String a old) new s))) ->
  forall s, P s (replace (String a old) new s).
Proof.
  intros Hnil Hmatch Hother s.
  remember (String.length s) as n eqn:Hn.
  assert (String.length s <= n) as Hle by lia. clear Hn.
  revert s Hle. induction n as [|n IH]; intros s Hle.
  - destruct s; [exact Hnil | simpl in Hle; lia].
  - destruct s as [|c s]; [exact Hnil|].
    destruct (starts_with (String a old) (String c s)) eqn:E.
    + apply starts_with_spec in E as [t E]. rewrite E, replace_match.
      apply Hmatch, IH.
      assert (String.length (String c s) = String.length (String a old +:+ t))
        as Hlen by (by rewrite E).
      rewrite str_length_append in Hlen. simpl in Hlen, Hle. lia.
    + rewrite replace_other by done. apply Hother; [done|].
      apply IH. simpl in Hle. lia.
Qed.

(** A text without the first character of [old] begins the result exactly
    when it begins the string, if [new] begins with that character too. *)
Lemma replace_keeps_prefix a old new p s :
  all_chars (fun c => negb (Ascii.eqb c a)) p = true ->
  starts_with p (replace (String a old) (String a new) s) = starts_with p s.
Proof.
  intros Hp. destruct p as [|x p]; [done|].
  simpl in Hp. apply andb_true_iff in Hp as [Hx Hp].
  apply negb_true_iff in Hx.
  revert x Hx s. induction p as [|y p IH]; intros x Hx s.
  - destruct s as [|c s]; [done|].
    destruct (starts_with (String a old) (String c s)) eqn:E.
    + apply starts_with_spec in E as [t E]. rewrite E, replace_match.
      simpl. by rewrite Hx.
    + by rewrite replace_other.
  - simpl in Hp. apply andb_true_iff in Hp as [Hy Hp].
    apply negb_true_iff in Hy.
    destruct s as [|c s]; [done|].
    destruct (starts_with (String a old) (String c s)) eqn:E.
    + apply starts_with_spec in E as [t E]. rewrite E, replace_match.
      simpl. by rewrite Hx.
    + rewrite replace_other by done.
      change (starts_with (String x (String y p)) (String c ?r))
        with (Ascii.eqb x c && starts_with (String y p) r).
      f_equal. by apply IH.
Qed.

Lemma ends_with_append suffix a s :
  ends_with suffix s = true -> ends_with suffix (a +:+ s) = true.
Proof.
  intros H. induction a as [|c a IH]; [done|].
  simpl. rewrite IH. apply orb_true_r.
Qed.

Lemma ends_with_contains suffix s :
  ends_with suffix s = true -> contains suffix s = true.
Proof.
  induction s as [|c s IH]; simpl.
  - rewrite orb_false_r. intros ->%String.eqb_eq. done.
  - intros [->%String.eqb_eq | H]%orb_true_iff.
    + change (starts_with (String c s) (String c s)
              || contains (String c s) s = true).
      replace (starts_with (String c s) (String c s)) with true; [done|].
      symmetry. apply starts_with_spec. exists EmptyString.
      clear. induction (String c s) as [|x t IHt]; simpl; [done | by rewrite <- IHt].
    + rewrite (IH H). apply orb_true_r.
Qed.

(** The result of replacing [.fchk] by [.txt] holds no [.fchk]. *)
Lemma replace_fchk_gone s :
  contains ".fchk" (replace ".fchk" ".txt" s) = false.
Proof.
  apply (replace_ind "." "fchk" ".txt"
           (fun s r => contains ".fchk" r = false)); [done| |].
  - intros t H. simpl. exact H.
  - intros c t Hs H. cbn [contains]. rewrite H, orb_false_r.
    change (Ascii.eqb "." c && starts_with "fchk" (replace ".fchk" ".txt" t) = false).
    rewrite (replace_keeps_prefix "." "fchk" "txt" "fchk" t) by done.
    exact Hs.
Qed.

(** A name that ends with [.fchk] gets a name that ends with [.txt]. *)
Lemma replace_fchk_end s :
  ends_with ".fchk" s = true -> ends_with ".txt" (replace ".fchk" ".txt" s) = true.
Proof.
  apply (replace_ind "." "fchk" ".txt"
           (fun s r => ends_with ".fchk" s = true -> ends_with ".txt" r = true));
    [done| |].
  - intros t IH H. destruct t as [|c t]; [done|].
    apply (ends_with_append ".txt" ".txt"). apply IH.
    simpl in H. simpl. exact H.
  - intros c t Hs IH H. cbn [ends_with] in H. apply orb_true_iff in H as [H|H].
    + apply String.eqb_eq in H. rewrite <- H in Hs. discriminate.
    + cbn [ends_with]. rewrite (IH H). apply orb_true_r.
Qed.

Lemma input_files_loop_spec input_dir extension names : forall input_files,
  input_files_loop input_dir extension names input_files
  = input_files
    ++ (path_join input_dir
          <$> List.filter (ends_with ("." +:+ extension)) names).
Proof.
  induction names as [|file rest IH]; intros acc; simpl.
  - by rewrite app_nil_r.
  - rewrite IH. destruct (ends_with _ file); [|done].
    by rewrite <- app_assoc.
Qed.

Lemma path_join_end suffix a b :
  ends_with suffix b = true -> ends_with suffix (path_join a b) = true.
Proof.
  intros H. unfold path_join. destruct (starts_with "/" b); [done|].
  destruct (negb (truthy a) || ends_with "/" a).
  - by apply ends_with_append.
  - apply ends_with_append. by apply (ends_with_append suffix "/").
Qed.

(** X16: [_run] raises [ValueError] exactly when the wave function file
    does not exist, whatever the commands are.  Otherwise the name of its
    output file holds no [.fchk] any more, and it is the name of the wave
    function file itself exactly when that name holds no [.fchk]: the
    shell command then redirects the output onto the wave function file. *)
Theorem _run_output_file (isfile : string -> bool) (wave_file : string)
    (commands : list string) :
  (forall e, _run isfile wave_file commands = Raise e
     <-> isfile wave_file = false /\ e = ValueError)
  /\ (forall args output_file,
        _run isfile wave_file commands = Ok (args, output_file) ->
        isfile wave_file = true
        /\ contains ".fchk" output_file = false
        /\ (output_file = wave_file <-> contains ".fchk" wave_file = false)
        /\ starts_with
             ("Multiwfn " +:+ wave_file +:+ " << EOF > " +:+ output_file +:+ newline)
             args = true).
Proof.
  unfold _run. destruct (isfile wave_file); simpl negb; cbv iota; split.
  - intros e. split; [done | by intros [? _]].
  - intros args output_file [= <- <-]. split; [done|].
    split; [apply replace_fchk_gone|]. split.
    + split.
      * intros E. rewrite <- E at 1. apply replace_fchk_gone.
      * apply replace_absent.
    + apply starts_with_spec.
      exists (join_lines commands +:+ newline +:+ "EOF" +:+ newline).
      by rewrite !append_assoc_str.
  - intros e. split; [by intros [= <-] | by intros [_ ->]].
  - done.
Qed.

Lemma _run_output_file_witness :
  (fun _ : string => true) "mol.wfn" = true
  /\ contains ".fchk" "mol.wfn" = false
  /\ ("mol.wfn" = "mol.wfn" <-> contains ".fchk" "mol.wfn" = false)
  /\ starts_with
       ("Multiwfn " +:+ "mol.wfn" +:+ " << EOF > " +:+ "mol.wfn" +:+ newline)
       ("Multiwfn mol.wfn << EOF > mol.wfn" +:+ newline +:+ "q" +:+ newline
        +:+ "EOF" +:+ newline) = true.
Proof.
  apply (proj2 (_run_output_file (fun _ => true) "mol.wfn" ["q"])
           ("Multiwfn mol.wfn << EOF > mol.wfn" +:+ newline +:+ "q" +:+ newline
            +:+ "EOF" +:+ newline) "mol.wfn").
  vm_compute. reflexivity.
Defined.

(** X17: the wave function files that [get_input_files] finds with the
    default extension are the names of the listing that end with [.fchk],
    in the order of the listing, each joined to the directory; and for each
    of them that exists [_run] returns an output file of another name,
    which ends with [.txt]. *)
Theorem input_files_get_output_files (listing : list string) (input_dir : string)
    (isfile : string -> bool) (commands : list string) :
  get_input_files listing input_dir "fchk"
  = path_join input_dir <$> List.filter (ends_with ".fchk") listing
  /\ forall wave_file,
       wave_file ∈ get_input_files listing input_dir "fchk" ->
       isfile wave_file = true ->
       exists args output_file,
         _run isfile wave_file commands = Ok (args, output_file)
         /\ output_file <> wave_file
         /\ ends_with ".fchk" wave_file = true
         /\ ends_with ".txt" output_file = true.
Proof.
  assert (get_input_files listing input_dir "fchk"
          = path_join input_dir <$> List.filter (ends_with ".fchk") listing) as E
    by (unfold get_input_files; by rewrite input_files_loop_spec).
  split; [exact E|]. rewrite E. intros wave_file Hin Hfile.
  apply list_elem_of_fmap in Hin as (file & -> & Hin).
  apply list_elem_of_In, filter_In in Hin as [_ Hend].
  pose proof (path_join_end _ input_dir _ Hend) as Hw.
  unfold _run. rewrite Hfile. simpl negb. cbv iota.
  eexists _, _. split; [reflexivity|]. split; [|split; [done|]].
  - intros Heq. pose proof (replace_fchk_gone (path_join input_dir file)) as Hg.
    rewrite Heq in Hg. apply ends_with_contains in Hw. congruence.
  - by apply replace_fchk_end.
Qed.

Lemma input_files_get_output_files_witness :
  exists args output_file,
    _run (fun _ => true) "data/1.fchk" ["100"; "q"] = Ok (args, output_file)
    /\ output_file <> "data/1.fchk"
    /\ ends_with ".fchk" "data/1.fchk" = true
    /\ ends_with ".txt" output_file = true.
Proof.
  apply (input_files_get_output_files ["notes.txt"; "1.fchk"] "data"
           (fun _ => true) ["100"; "q"]).
  - vm_compute. by left.
  - reflexivity.
Defined.

(** ** Which file goes to which parser *)

Lemma results_loop_spec read_contents pairs : forall results_list results,
  results_loop read_contents pairs results_list = Ok results ->
  exists rs, results = results_list ++ rs
    /\ length rs = length pairs
    /\ forall i r, rs !! i = Some r ->
         exists output_file cdft_file,
           pairs !! i = Some (output_file, cdft_file)
           /\ get_descriptors (read_contents cdft_file)
                (read_contents output_file) = Ok r.
Proof.
  induction pairs as [|[output_file cdft_file] rest IH];
    intros results_list results H; simpl in H.
  - injection H as <-. exists []. rewrite app_nil_r. by repeat split.
  - destruct (get_descriptors _ _) as [result|] eqn:E; cbn [rbind] in H; [|done].
    destruct (IH _ _ H) as (rs & -> & Hlen & Hrs).
    exists (result :: rs). rewrite <- app_assoc. repeat split.
    + simpl. by rewrite Hlen.
    + intros [|i] r Hi; simpl in Hi.
      * injection Hi as <-. by exists output_file, cdft_file.
      * by apply Hrs.
Qed.

Lemma get_descriptors_ok cdft_contents contents d :
  get_descriptors cdft_contents contents = Ok d ->
  exists od cd,
    _get_other_descriptors contents = Ok od
    /\ _get_cdft_descriptors cdft_contents = Ok cd
    /\ d = cd ∪ od
    /\ forall key, key ∈ other_keys -> d !! key = od !! key.
Proof.
  unfold get_descriptors. intros H.
  destruct (_get_other_descriptors contents) as [od|] eqn:Hod;
    cbn [rbind] in H; [|done].
  destruct (_get_cdft_descriptors cdft_contents) as [cd|] eqn:Hcd;
    cbn [rbind] in H; [|done].
  injection H as <-. exists od, cd. repeat split.
  intros key Hk%in_keys_spec. apply lookup_union_r.
  pose proof (cdft_record_shape _ _ Hcd key) as Hc.
  destruct (cd !! key) as [v|]; [|done].
  destruct Hc as [Hc _]. by rewrite (other_key_not_cdft _ Hk) in Hc.
Qed.

Lemma records_ok (r : result (list descriptors)) :
  is_ok r = true -> r = Ok (records r).
Proof. by destruct r. Qed.

(** X18: in a run of [main] that returns, the record at position [i] is
    built from the file at position [i] of the [*-CDFT.txt] list and the
    file at position [i] of the numbered list, as many records as the
    shorter list has files; and it is the [*-CDFT.txt] file whose text goes
    to the parser of the general report, the numbered file whose text goes
    to the parser of the CDFT report.  So when the text of the
    [*-CDFT.txt] file has none of the anchors of the general report, its
    record holds [None] under every key of the general report. *)
Theorem main_reads_swapped (read_contents : string -> string)
    (set_order : list string -> list string)
    (cdft_txt_files all_txt_files : list string) (results : list descriptors) :
  main_results read_contents set_order cdft_txt_files all_txt_files = Ok results ->
  exists other_txt_files,
    get_output_files set_order cdft_txt_files all_txt_files
    = Ok (cdft_txt_files, other_txt_files)
    /\ length results
       = Nat.min (length cdft_txt_files) (length other_txt_files)
    /\ forall i result, results !! i = Some result ->
         exists cdft_named numbered od cd,
           cdft_txt_files !! i = Some cdft_named
           /\ other_txt_files !! i = Some numbered
           /\ _get_other_descriptors (read_contents cdft_named) = Ok od
           /\ _get_cdft_descriptors (read_contents numbered) = Ok cd
           /\ result = cd ∪ od
           /\ ((forall line, line ∈ splitlines (read_contents cdft_named) ->
                  anchor_free line = true) ->
               forall key, key ∈ other_keys -> result !! key = Some DNone).
Proof.
  unfold main_results. intros H.
  destruct (get_output_files set_order cdft_txt_files all_txt_files)
    as [[output_files cdft_files]|] eqn:E; cbn [rbind] in H; [|done].
  assert (output_files = cdft_txt_files) as ->.
  { unfold get_output_files in E.
    destruct (list_sort file_number _); cbn [rbind] in E; [|done].
    by injection E as <- _. }
  exists cdft_files. split; [done|].
  apply results_loop_spec in H as (rs & -> & Hlen & Hrs).
  rewrite app_nil_l. split; [by rewrite Hlen, length_zip|].
  intros i result Hi.
  destruct (Hrs _ _ Hi) as (output_file & cdft_file & Hpair & Hget).
  apply lookup_zip_with_Some in Hpair as (c & o & [= -> ->] & Hc & Ho).
  apply get_descriptors_ok in Hget as (od & cd & Hod & Hcd & -> & Hkeys).
  exists c, o, od, cd. repeat split; try done.
  intros Hfree key Hk. rewrite (Hkeys key Hk).
  unfold _get_other_descriptors in Hod.
  rewrite (anchor_free_parse _ Hfree) in Hod. injection Hod as <-.
  unfold initial_descriptors. rewrite none_dict_lookup_cases.
  apply in_keys_spec in Hk. by rewrite Hk.
Qed.

Lemma main_reads_swapped_witness :
  exists other_txt_files,
    get_output_files (fun l => l) ["out/1-CDFT.txt"] ["out/1-CDFT.txt"; "out/1.txt"]
    = Ok (["out/1-CDFT.txt"], other_txt_files)
    /\ length (records (main_results sample_files
                         (fun l => l) ["out/1-CDFT.txt"]
                         ["out/1-CDFT.txt"; "out/1.txt"]))
       = Nat.min (length ["out/1-CDFT.txt"]) (length other_txt_files)
    /\ forall i result,
         records (main_results sample_files
                    (fun l => l) ["out/1-CDFT.txt"]
                    ["out/1-CDFT.txt"; "out/1.txt"]) !! i = Some result ->
         exists cdft_named numbered od cd,
           ["out/1-CDFT.txt"] !! i = Some cdft_named
           /\ other_txt_files !! i = Some numbered
           /\ _get_other_descriptors
                (sample_files cdft_named) = Ok od
           /\ _get_cdft_descriptors
                (sample_files numbered) = Ok cd
           /\ result = cd ∪ od
           /\ ((forall line,
                  line ∈ splitlines
                           (sample_files cdft_named) ->
                  anchor_free line = true) ->
               forall key, key ∈ other_keys -> result !! key = Some DNone).
Proof.
  apply (main_reads_swapped sample_files (fun l => l)
           ["out/1-CDFT.txt"] ["out/1-CDFT.txt"; "out/1.txt"]).
  apply records_ok. vm_compute. reflexivity.
Defined.
